(** * bintotxt: binary graph dump to text edge list

    A shallow embedding of [src/bintotxt/bintotxt.go] and the properties
    of its decoder ([readGraph]) and of its text emitter ([writeEdges]).

    Conventions of the embedding:
    - an [int16] is a [Z]; the conversion from the two bytes of the file is
      written out ([binary.Uint16], [binary.to_int16]);
    - the input file is the list of its bytes, [os.Open] is a lookup in a
      file system that answers with the bytes or with the error of the
      operating system; reading an open file fails only by reaching its
      end;
    - a Go result [(int16, []Edge, error)] is a triple whose last component
      is [None] for [nil]; the [nil] slice and the empty slice are both the
      empty list;
    - the output file is the string of the bytes written so far; whether
      [os.Create] and the successive writes succeed is read from a [Disk]. *)

From Stdlib Require Import ZArith List String Ascii Bool Lia.
From Stdlib.Strings Require Import Byte.
Import ListNotations.

Local Open Scope string_scope.
Local Open Scope Z_scope.

(** ** The pieces of the Go library the program calls *)

Module io.

(** The two sentinel errors [io.ReadFull] can return on an in-memory
    stream: [io.EOF] when no byte at all was read, [io.ErrUnexpectedEOF]
    when the stream ended after some but not all bytes. *)
Inductive error : Set :=
| EOF
| ErrUnexpectedEOF.

(** The text of [%v] for these errors. *)
Definition Error (e : error) : string :=
  match e with
  | EOF => "EOF"
  | ErrUnexpectedEOF => "unexpected EOF"
  end.

(** An open file, seen as the bytes that remain to be read. *)
Definition Reader := list byte.

(** [io.ReadFull(r, buf)] with [len(buf) = 2], the only size
    [binary.Read] needs for an [int16]. *)
Definition ReadFull2 (r : Reader) : (byte * byte * Reader) + error :=
  match r with
  | [] => inr EOF
  | [_] => inr ErrUnexpectedEOF
  | b0 :: b1 :: rest => inl (b0, b1, rest)
  end.

End io.

Module binary.

(** [binary.LittleEndian.Uint16(b)] is [uint16(b[0]) | uint16(b[1])<<8]. *)
Definition Uint16 (b0 b1 : byte) : Z :=
  Z.lor (Z.of_N (Byte.to_N b0)) (Z.shiftl (Z.of_N (Byte.to_N b1)) 8).

(** The Go conversion [int16(u)] of a [uint16]: the same 16 bits read
    in two's complement. *)
Definition to_int16 (u : Z) : Z :=
  (u + 32768) mod 65536 - 32768.

(** [binary.Read(r, binary.LittleEndian, &x)] for [x] an [int16]. *)
Definition Read (r : io.Reader) : (Z * io.Reader) + io.error :=
  match io.ReadFull2 r with
  | inr e => inr e
  | inl (b0, b1, rest) => inl (to_int16 (Uint16 b0 b1), rest)
  end.

End binary.

Module fmt.

(** The decimal digit of a value below ten. *)
Definition digit (d : Z) : ascii :=
  ascii_of_N (48 + Z.to_N d).

(** The digit loop of the [%d] verb,
    [for u >= 10 { next := u / 10; buf[i] = '0' + u - next*10; u = next }]
    followed by the last digit; digits are produced from the right.  A
    64-bit value has at most 20 digits, which bounds the loop. *)
Fixpoint fmtDigits (fuel : nat) (u : Z) (buf : string) : string :=
  match fuel with
  | O => buf
  | S fuel' =>
      if u >=? 10
      then let next := u / 10 in
           fmtDigits fuel' next (String (digit (u - next * 10)) buf)
      else String (digit u) buf
  end.

(** The verb [%d] on a signed integer. *)
Definition d (v : Z) : string :=
  let negative := v <? 0 in
  let u := if negative then - v else v in
  let buf := fmtDigits 20 u "" in
  if negative then String "-" buf else buf.

End fmt.

(** ** The program *)

(** [type Edge struct { from, to, weight int16 }] *)
Record Edge : Set := mkEdge {
  from : Z;
  to : Z;
  weight : Z
}.

(** The errors [readGraph] and [writeEdges] build with [fmt.Errorf], one
    constructor per call site, carrying the arguments of the format. *)
Inductive Error : Set :=
| ErrOpen (filename : string) (err : string)
| ErrNumVertices (err : io.error)
| ErrFrom (err : io.error)
| ErrTo (err : io.error)
| ErrWeight (err : io.error)
| ErrIndices (from to : Z)
| ErrCreate (filename : string) (err : string)
| ErrHeader (err : string)
| ErrEdge (err : string).

(** The message of each error, as [fmt.Errorf] formats it. *)
Definition Error_text (e : Error) : string :=
  match e with
  | ErrOpen filename err =>
      "не удалось открыть файл " ++ filename ++ ": " ++ err
  | ErrNumVertices err =>
      "не удалось прочитать количество вершин: " ++ io.Error err
  | ErrFrom err =>
      "ошибка при чтении вершины 'from': " ++ io.Error err
  | ErrTo err =>
      "ошибка при чтении вершины 'to': " ++ io.Error err
  | ErrWeight err =>
      "ошибка при чтении веса ребра: " ++ io.Error err
  | ErrIndices from to =>
      "недопустимые индексы вершин: from=" ++ fmt.d from ++ ", to=" ++ fmt.d to
  | ErrCreate filename err =>
      "не удалось создать файл " ++ filename ++ ": " ++ err
  | ErrHeader err =>
      "ошибка при записи заголовка: " ++ err
  | ErrEdge err =>
      "ошибка при записи ребра: " ++ err
  end.

(** The files that can be opened for reading: [os.Open] answers with the
    bytes of the file or with the text of the system's error. *)
Definition FileSystem := string -> io.Reader + string.

(** What [readGraph] returns: [(int16, []Edge, error)]. *)
Definition GraphResult : Set := Z * list Edge * option Error.

(** [return 0, nil, fmt.Errorf(...)] *)
Definition failed (e : Error) : GraphResult := (0, [], Some e).

(** The [for { ... }] loop of [readGraph].  Each turn of the loop that
    does not return consumes six bytes of the file; [fuel] bounds the number
    of turns and [None] is the answer of a loop cut short by it. *)
Fixpoint readEdges (fuel : nat) (numVertices : Z) (file : io.Reader)
    (edges : list Edge) : option GraphResult :=
  match fuel with
  | O => None
  | S fuel' =>
      match binary.Read file with
      | inr io.EOF => Some (numVertices, edges, None)
      | inr err => Some (failed (ErrFrom err))
      | inl (from, file) =>
          match binary.Read file with
          | inr err => Some (failed (ErrTo err))
          | inl (to, file) =>
              match binary.Read file with
              | inr err => Some (failed (ErrWeight err))
              | inl (weight, file) =>
                  if (from <? 0) || (from >=? numVertices)
                     || (to <? 0) || (to >=? numVertices)
                  then Some (failed (ErrIndices from to))
                  else readEdges fuel' numVertices file
                         (edges ++ [mkEdge from to weight])
              end
          end
      end
  end.

(** [func readGraph(filename string) (int16, []Edge, error)].  The loop is
    given one turn more than the file has bytes. *)
Definition readGraph (fs : FileSystem) (filename : string)
    : option GraphResult :=
  match fs filename with
  | inr err => Some (failed (ErrOpen filename err))
  | inl file =>
      match binary.Read file with
      | inr err => Some (failed (ErrNumVertices err))
      | inl (numVertices, file) =>
          readEdges (S (List.length file)) numVertices file []
      end
  end.

(** The output side of the operating system: the error of [os.Create] on a
    path, if any, and the error of the [i]-th write to the created file, if
    any.  A write that fails is taken to have written nothing. *)
Record Disk : Type := mkDisk {
  create_err : string -> option string;
  write_err : nat -> option string
}.

(** The newline [fmt.Fprintln] appends. *)
Definition newline : string := String "010"%char "".

(** [fmt.Fprintln(file, s)], the [i]-th write to a file holding [content]:
    the new content, or the error. *)
Definition Fprintln (disk : Disk) (i : nat) (content s : string)
    : string + string :=
  match write_err disk i with
  | Some err => inr err
  | None => inl (content ++ s ++ newline)
  end.

(** The header line of the report. *)
Definition header : string := "Список ребер графа:".

(** [fmt.Sprintf("(%d, %d, %d)", edge.from, edge.to, edge.weight)] *)
Definition Sprintf_edge (edge : Edge) : string :=
  "(" ++ fmt.d (from edge) ++ ", " ++ fmt.d (to edge) ++ ", "
      ++ fmt.d (weight edge) ++ ")".

(** The [for _, edge := range edges] loop of [writeEdges]: the content of
    the file when the loop is left and the error returned, if any. *)
Fixpoint writeLines (disk : Disk) (i : nat) (content : string)
    (edges : list Edge) : string * option Error :=
  match edges with
  | [] => (content, None)
  | edge :: edges' =>
      let line := Sprintf_edge edge in
      match Fprintln disk i content line with
      | inr err => (content, Some (ErrEdge err))
      | inl content' => writeLines disk (S i) content' edges'
      end
  end.

(** [func writeEdges(filename string, edges []Edge) error], together with
    its effect: the content of the file [filename] after the call, [None]
    when the file could not be created. *)
Definition writeEdges (disk : Disk) (filename : string) (edges : list Edge)
    : option string * option Error :=
  match create_err disk filename with
  | Some err => (None, Some (ErrCreate filename err))
  | None =>
      match Fprintln disk 0 "" header with
      | inr err => (Some "", Some (ErrHeader err))
      | inl content =>
          let (content', err) := writeLines disk 1 content edges in
          (Some content', err)
      end
  end.

(** ** The vocabulary of the specification *)

(** The values an [int16] holds. *)
Definition is_int16 (v : Z) : Prop := -32768 <= v <= 32767.

(** An edge whose three fields are [int16] values. *)
Definition Edge_int16 (e : Edge) : Prop :=
  is_int16 (from e) /\ is_int16 (to e) /\ is_int16 (weight e).

(** The validity invariant of an edge of a graph of [numVertices]
    vertices: [0 <= from < numVertices] and [0 <= to < numVertices]. *)
Definition valid_edge (numVertices : Z) (e : Edge) : Prop :=
  (0 <= from e < numVertices) /\ (0 <= to e < numVertices).

(** The validity invariant as the test the decoder makes. *)
Definition valid_edgeb (numVertices : Z) (e : Edge) : bool :=
  (0 <=? from e) && (from e <? numVertices)
  && (0 <=? to e) && (to e <? numVertices).

(** The low eight bits of an integer, as a byte. *)
Definition byte_of_Z (z : Z) : byte :=
  match Byte.of_N (Z.to_N (z mod 256)) with
  | Some b => b
  | None => x00
  end.

(** The little-endian encoding of an [int16]: the low byte, then the high
    byte of its two's complement representation. *)
Definition encode_int16 (v : Z) : list byte :=
  [byte_of_Z v; byte_of_Z (Z.shiftr v 8)].

(** A record of the binary layout: [from], [to], [weight]. *)
Definition encode_edge (e : Edge) : list byte :=
  encode_int16 (from e) ++ encode_int16 (to e) ++ encode_int16 (weight e).

(** The binary layout of a graph: the vertex count, then the records in
    order. *)
Definition encode_graph (numVertices : Z) (edges : list Edge) : list byte :=
  encode_int16 numVertices ++ flat_map encode_edge edges.

(** The [int16] that two bytes of the file hold. *)
Definition int16_of (b0 b1 : byte) : Z :=
  binary.to_int16 (binary.Uint16 b0 b1).

(** The vertex count an input of at least two bytes starts with. *)
Definition header_value (input : list byte) : Z :=
  match input with
  | b0 :: b1 :: _ => int16_of b0 b1
  | _ => 0
  end.

(** The complete six-byte records of the bytes that follow the vertex
    count, in order; a last group of fewer than six bytes is no record. *)
Fixpoint complete_records (body : list byte) : list Edge :=
  match body with
  | b0 :: b1 :: b2 :: b3 :: b4 :: b5 :: rest =>
      mkEdge (int16_of b0 b1) (int16_of b2 b3) (int16_of b4 b5)
      :: complete_records rest
  | _ => []
  end.

(** The complete records of an input, vertex count included. *)
Definition records_of (input : list byte) : list Edge :=
  complete_records (skipn 2 input).

(** The error taxonomy of the specification. *)
Inductive ErrorClass : Set :=
| IOError
| FormatError
| ValidationError.

(** The class of each error: a truncated header or record is a format
    error, an index out of range a validation error, a failure to open,
    create or write an I/O error. *)
Definition classify (e : Error) : ErrorClass :=
  match e with
  | ErrNumVertices _ | ErrFrom _ | ErrTo _ | ErrWeight _ => FormatError
  | ErrIndices _ _ => ValidationError
  | ErrOpen _ _ | ErrCreate _ _ | ErrHeader _ | ErrEdge _ => IOError
  end.

(** A disk on which the file [filename] can be created and every write
    succeeds. *)
Definition reliable (disk : Disk) (filename : string) : Prop :=
  create_err disk filename = None /\ forall i, write_err disk i = None.

(** The lines of a text: the newline ends a line, and a last line with no
    newline counts when it is not empty. *)
Fixpoint split_lines (cur s : string) : list string :=
  match s with
  | EmptyString =>
      match cur with
      | EmptyString => []
      | _ => [cur]
      end
  | String c s' =>
      if Ascii.eqb c "010"%char
      then cur :: split_lines "" s'
      else split_lines (cur ++ String c "") s'
  end.

Definition lines (s : string) : list string := split_lines "" s.

(** The value of a decimal digit. *)
Definition digit_value (c : ascii) : option Z :=
  let n := N_of_ascii c in
  if ((48 <=? n) && (n <=? 57))%N then Some (Z.of_N n - 48) else None.

(** Reading a run of decimal digits from the left. *)
Fixpoint read_digits (acc : Z) (s : string) : option Z :=
  match s with
  | EmptyString => Some acc
  | String c s' =>
      match digit_value c with
      | Some v => read_digits (10 * acc + v) s'
      | None => None
      end
  end.

(** Reading a base-10 signed decimal: an optional minus sign, then at
    least one digit. *)
Definition read_decimal (s : string) : option Z :=
  match s with
  | EmptyString => None
  | String c s' =>
      if Ascii.eqb c "-"
      then match s' with
           | EmptyString => None
           | _ => option_map Z.opp (read_digits 0 s')
           end
      else read_digits 0 s
  end.

(** A text with no newline in it. *)
Fixpoint no_newline (s : string) : bool :=
  match s with
  | EmptyString => true
  | String c s' => negb (Ascii.eqb c "010"%char) && no_newline s'
  end.

(** The text made of the given lines, each ended by a newline. *)
Definition text_of_lines (ls : list string) : string :=
  fold_right (fun l s => l ++ newline ++ s) "" ls.

(** The invalid record the decoder meets first, if any. *)
Definition first_invalid (numVertices : Z) (records : list Edge)
    : option Edge :=
  find (fun e => negb (valid_edgeb numVertices e)) records.

(** The error of a record cut after [r] bytes, [1 <= r <= 5]. *)
Definition truncation_error (r : nat) : Error :=
  match r with
  | 1%nat => ErrFrom io.ErrUnexpectedEOF
  | 2%nat => ErrTo io.EOF
  | 3%nat => ErrTo io.ErrUnexpectedEOF
  | 4%nat => ErrWeight io.EOF
  | _ => ErrWeight io.ErrUnexpectedEOF
  end.

(** ** Running the program on small inputs *)

(** A file system holding one file. *)
Definition one_file (name : string) (content : list byte) : FileSystem :=
  fun filename =>
    if String.eqb filename name then inl content
    else inr "no such file or directory".

(** A disk with no failure. *)
Definition good_disk : Disk :=
  mkDisk (fun _ => None) (fun _ => None).

(** ** The entry point *)

(** The command line after [flag.Parse()]: for each of the two flags the
    value given to it, [None] when the flag was not given. *)
Record Flags : Set := mkFlags {
  flag_i : option string;
  flag_o : option string
}.

(** [*flag.String(name, value, usage)] once the flags are parsed: the value
    given on the command line, or else the default [value]. *)
Definition flag_String (given : option string) (value : string) : string :=
  match given with
  | Some v => v
  | None => value
  end.

(** The usage message. *)
Definition usage : string :=
  "Использование: go run read_graph.go -i inputfile [-o outputfile]".

(** What a run of the program leaves behind: the text printed on the
    standard output, and the path and content of the output file when
    [os.Create] made one. *)
Record Outcome : Set := mkOutcome {
  stdout : string;
  written : option (string * string)
}.

(** The output file [writeEdges] left at [path], if any. *)
Definition file_at (path : string) (file : option string)
    : option (string * string) :=
  match file with
  | Some content => Some (path, content)
  | None => None
  end.

(** [func main()], from the parsed flags on.  Printing on the standard
    output does not fail. *)
Definition main (fs : FileSystem) (disk : Disk) (flags : Flags)
    : option Outcome :=
  let inputFile := flag_String (flag_i flags) "" in
  let outputFile := flag_String (flag_o flags) "output.txt" in
  if String.eqb inputFile ""
  then Some (mkOutcome (usage ++ newline) None)
  else
    match readGraph fs inputFile with
    | None => None
    | Some (numVertices, edges, Some err) =>
        Some (mkOutcome
                ("Ошибка при чтении графа: " ++ Error_text err ++ newline)
                None)
    | Some (numVertices, edges, None) =>
        let summary :=
          "Граф успешно считан: " ++ fmt.d numVertices ++ " вершин, "
          ++ fmt.d (Z.of_nat (List.length edges)) ++ " ребер." ++ newline in
        match writeEdges disk outputFile edges with
        | (file, Some err) =>
            Some (mkOutcome
                    (summary ++ "Ошибка при записи ребер: "
                     ++ Error_text err ++ newline)
                    (file_at outputFile file))
        | (file, None) =>
            Some (mkOutcome
                    (summary ++ "Ребра успешно записаны в файл "
                     ++ outputFile ++ "." ++ newline)
                    (file_at outputFile file))
        end
    end.

(** ** Reading a line of the report back *)

(** The characters a decimal number is written with. *)
Definition number_char (c : ascii) : bool :=
  Ascii.eqb c "-"
  || match digit_value c with
     | Some _ => true
     | None => false
     end.

(** A text made of number characters only. *)
Fixpoint number_text (s : string) : bool :=
  match s with
  | EmptyString => true
  | String c s' => number_char c && number_text s'
  end.

(** The longest run of number characters a text starts with, and the
    rest of the text. *)
Fixpoint take_number (s : string) : string * string :=
  match s with
  | EmptyString => (EmptyString, EmptyString)
  | String c s' =>
      if number_char c
      then let (n, rest) := take_number s' in (String c n, rest)
      else (EmptyString, s)
  end.

(** The text that follows [sep] at the start of [s], if [s] starts with
    [sep]. *)
Fixpoint after (sep s : string) : option string :=
  match sep with
  | EmptyString => Some s
  | String c sep' =>
      match s with
      | EmptyString => None
      | String c' s' => if Ascii.eqb c c' then after sep' s' else None
      end
  end.

(** Reading a line [(from, to, weight)] of the report. *)
Definition read_edge_line (l : string) : option Edge :=
  match after "(" l with
  | None => None
  | Some s1 =>
      let (a, r1) := take_number s1 in
      match after ", " r1 with
      | None => None
      | Some s2 =>
          let (b, r2) := take_number s2 in
          match after ", " r2 with
          | None => None
          | Some s3 =>
              let (c, r3) := take_number s3 in
              match after ")" r3, read_decimal a, read_decimal b,
                    read_decimal c with
              | Some EmptyString, Some f, Some t, Some w =>
                  Some (mkEdge f t w)
              | _, _, _, _ => None
              end
          end
      end
  end.

Local Open Scope list_scope.

(** Closing a side condition on concrete data. *)
Ltac concrete :=
  first
    [ reflexivity
    | lia
    | split; [reflexivity | intros; reflexivity]
    | unfold is_int16; lia
    | repeat constructor; unfold is_int16, valid_edge; simpl; lia ].

(** ** Two bytes and the [int16] they hold *)

Lemma byte_range (b : byte) : 0 <= Z.of_N (Byte.to_N b) < 256.
Proof.
  pose proof (Byte.to_N_bounded b). lia.
Qed.

Lemma land_low_shifted (a b : Z) :
  0 <= a < 256 -> Z.land a (Z.shiftl b 8) = 0.
Proof.
  intros Ha. apply Z.bits_inj'. intros n Hn.
  rewrite Z.land_spec, Z.bits_0.
  destruct (Z.ltb_spec n 8) as [Hlt | Hge].
  - rewrite (Z.shiftl_spec_low b 8 n) by lia. apply andb_false_r.
  - replace a with (a mod 2 ^ 8) by (apply Z.mod_small; lia).
    rewrite Z.mod_pow2_bits_high by lia. reflexivity.
Qed.

Lemma Uint16_sum (b0 b1 : byte) :
  binary.Uint16 b0 b1 = Z.of_N (Byte.to_N b0) + 256 * Z.of_N (Byte.to_N b1).
Proof.
  unfold binary.Uint16.
  pose proof (Z.add_lor_land (Z.of_N (Byte.to_N b0))
                (Z.shiftl (Z.of_N (Byte.to_N b1)) 8)) as H.
  rewrite land_low_shifted in H by apply byte_range.
  rewrite Z.shiftl_mul_pow2 in * by lia.
  change (2 ^ 8) with 256 in *. lia.
Qed.

Lemma int16_of_range (b0 b1 : byte) : is_int16 (int16_of b0 b1).
Proof.
  unfold is_int16, int16_of, binary.to_int16.
  pose proof (Z.mod_pos_bound (binary.Uint16 b0 b1 + 32768) 65536).
  lia.
Qed.

Lemma byte_of_Z_value (z : Z) :
  Z.of_N (Byte.to_N (byte_of_Z z)) = z mod 256.
Proof.
  unfold byte_of_Z.
  pose proof (Z.mod_pos_bound z 256 ltac:(lia)) as Hb.
  pose proof (Byte.to_of_N_option_map (Z.to_N (z mod 256))) as H.
  destruct (Byte.of_N (Z.to_N (z mod 256))) as [b |] eqn:E; simpl in H.
  - destruct (N.leb_spec (Z.to_N (z mod 256)) 255); [| discriminate].
    injection H as H. rewrite H. lia.
  - destruct (N.leb_spec (Z.to_N (z mod 256)) 255); [discriminate | lia].
Qed.

(** Decoding the two bytes of an encoded [int16] gives the value back. *)
Lemma int16_of_encode (v : Z) :
  is_int16 v ->
  int16_of (byte_of_Z v) (byte_of_Z (Z.shiftr v 8)) = v.
Proof.
  unfold is_int16, int16_of, binary.to_int16. intros Hv.
  rewrite Uint16_sum, !byte_of_Z_value.
  rewrite Z.shiftr_div_pow2 by lia. change (2 ^ 8) with 256.
  Z.div_mod_to_equations. lia.
Qed.

Lemma Read_encode_int16 (v : Z) (rest : io.Reader) :
  is_int16 v ->
  binary.Read (encode_int16 v ++ rest) = inl (v, rest).
Proof.
  intros Hv. unfold binary.Read. simpl.
  fold (int16_of (byte_of_Z v) (byte_of_Z (Z.shiftr v 8))).
  rewrite int16_of_encode by assumption. reflexivity.
Qed.

(** ** The decoding loop, record by record *)

Lemma valid_edgeb_iff (n : Z) (e : Edge) :
  valid_edgeb n e = true <-> valid_edge n e.
Proof.
  unfold valid_edgeb, valid_edge.
  rewrite !andb_true_iff, !Z.leb_le, !Z.ltb_lt. tauto.
Qed.

Lemma valid_edgeb_false_iff (n : Z) (e : Edge) :
  valid_edgeb n e = false <-> ~ valid_edge n e.
Proof.
  rewrite <- valid_edgeb_iff. destruct (valid_edgeb n e); split; congruence.
Qed.

(** The test of the loop is the negation of the validity invariant. *)
Lemma index_test (n f t : Z) :
  (f <? 0) || (f >=? n) || (t <? 0) || (t >=? n)
  = negb (valid_edgeb n (mkEdge f t 0)).
Proof.
  unfold valid_edgeb; simpl.
  rewrite !negb_andb, !Z.geb_leb, !Z.leb_antisym, !Z.ltb_antisym.
  rewrite !negb_involutive. reflexivity.
Qed.

(** Induction on a byte stream six bytes at a time. *)
Lemma six_bytes_ind (P : list byte -> Prop) :
  (forall l, (List.length l < 6)%nat -> P l) ->
  (forall b0 b1 b2 b3 b4 b5 rest,
      P rest -> P (b0 :: b1 :: b2 :: b3 :: b4 :: b5 :: rest)) ->
  forall l, P l.
Proof.
  intros Hshort Hstep l.
  assert (H : forall n l, (List.length l <= n)%nat -> P l).
  { induction n as [| n IH]; intros l' Hl.
    - apply Hshort. lia.
    - destruct l' as [| b0 [| b1 [| b2 [| b3 [| b4 [| b5 rest]]]]]];
        try (apply Hshort; simpl; lia).
      apply Hstep, IH. simpl in Hl. lia. }
  apply (H (List.length l)). lia.
Qed.

(** One turn of the loop on a stream that holds a complete record. *)
Lemma readEdges_record (fuel : nat) (n : Z) (b0 b1 b2 b3 b4 b5 : byte)
    (rest : io.Reader) (acc : list Edge) :
  let e := mkEdge (int16_of b0 b1) (int16_of b2 b3) (int16_of b4 b5) in
  readEdges (S fuel) n (b0 :: b1 :: b2 :: b3 :: b4 :: b5 :: rest) acc
  = if valid_edgeb n e
    then readEdges fuel n rest (acc ++ [e])
    else Some (failed (ErrIndices (from e) (to e))).
Proof.
  intros e. cbn [readEdges binary.Read io.ReadFull2].
  fold (int16_of b0 b1) (int16_of b2 b3) (int16_of b4 b5).
  rewrite index_test.
  change (valid_edgeb n (mkEdge (int16_of b0 b1) (int16_of b2 b3) 0))
    with (valid_edgeb n e).
  destruct (valid_edgeb n e); reflexivity.
Qed.

(** The stream is exhausted at the start of a record: the loop is left and
    the edges read so far are returned. *)
Lemma readEdges_end (fuel : nat) (n : Z) (acc : list Edge) :
  readEdges (S fuel) n [] acc = Some (n, acc, None).
Proof. reflexivity. Qed.

Lemma truncation_error_class (r : nat) :
  classify (truncation_error r) = FormatError.
Proof.
  destruct r as [| [| [| [| [| r]]]]]; reflexivity.
Qed.

(** The stream ends inside a record. *)
Lemma readEdges_truncated (fuel : nat) (n : Z) (file : io.Reader)
    (acc : list Edge) :
  (1 <= List.length file <= 5)%nat ->
  readEdges (S fuel) n file acc
  = Some (failed (truncation_error (List.length file))).
Proof.
  intros Hlen.
  destruct file as [| b0 [| b1 [| b2 [| b3 [| b4 [| b5 rest]]]]]];
    simpl in Hlen; try lia; reflexivity.
Qed.

Lemma complete_records_short (l : list byte) :
  (List.length l < 6)%nat -> complete_records l = [].
Proof.
  intros Hl.
  destruct l as [| b0 [| b1 [| b2 [| b3 [| b4 [| b5 rest]]]]]];
    simpl in Hl; try lia; reflexivity.
Qed.

(** The number of complete records and of the bytes left over. *)
Lemma complete_records_length (l : list byte) :
  exists r : nat,
    (r < 6)%nat
    /\ List.length l = (6 * List.length (complete_records l) + r)%nat.
Proof.
  induction l as [l Hl | b0 b1 b2 b3 b4 b5 rest IH] using six_bytes_ind.
  - exists (List.length l). rewrite complete_records_short by assumption.
    simpl. lia.
  - destruct IH as (r & Hr & Hlen). exists r. split; [assumption |].
    cbn [complete_records List.length]. lia.
Qed.

Lemma complete_records_count (l : list byte) (k r : nat) :
  List.length l = (6 * k + r)%nat -> (r < 6)%nat ->
  List.length (complete_records l) = k.
Proof.
  intros Hl Hr. destruct (complete_records_length l) as (r' & Hr' & Hlen).
  lia.
Qed.

(** With enough fuel the loop returns: its result is the edge list when
    every complete record is valid and no byte is left over, the error of
    the first invalid record when there is one, and the error of the
    truncated record otherwise. *)
Lemma readEdges_outcome (n : Z) (file : io.Reader) :
  forall (fuel : nat) (acc : list Edge),
    (List.length file < fuel)%nat ->
    readEdges fuel n file acc
    = Some
        match find (fun e => negb (valid_edgeb n e)) (complete_records file)
        with
        | Some e => failed (ErrIndices (from e) (to e))
        | None =>
            match (List.length file mod 6)%nat with
            | O => (n, acc ++ complete_records file, None)
            | r => failed (truncation_error r)
            end
        end.
Proof.
  induction file as [l Hl | b0 b1 b2 b3 b4 b5 rest IH] using six_bytes_ind;
    intros fuel acc Hfuel.
  - destruct fuel as [| fuel]; [lia |].
    rewrite complete_records_short by assumption. cbn [find].
    rewrite Nat.mod_small by assumption.
    destruct l as [| b l'].
    + rewrite app_nil_r. reflexivity.
    + rewrite readEdges_truncated by (simpl in *; lia). reflexivity.
  - destruct fuel as [| fuel]; [lia |].
    rewrite readEdges_record. cbn [complete_records find].
    destruct (valid_edgeb n _) eqn:Hv; cbn [negb]; [| reflexivity].
    rewrite IH by (simpl in Hfuel; lia).
    replace (List.length (b0 :: b1 :: b2 :: b3 :: b4 :: b5 :: rest) mod 6)%nat
      with (List.length rest mod 6)%nat.
    + rewrite <- app_assoc. reflexivity.
    + cbn [List.length].
      replace (S (S (S (S (S (S (List.length rest)))))))
        with (List.length rest + 1 * 6)%nat by lia.
      rewrite Nat.Div0.mod_add. reflexivity.
Qed.

(** ** The decoder on a whole file *)

Lemma first_invalid_none (n : Z) (records : list Edge) :
  first_invalid n records = None <-> Forall (valid_edge n) records.
Proof.
  unfold first_invalid. induction records as [| e records IH]; simpl.
  - split; [constructor | reflexivity].
  - destruct (valid_edgeb n e) eqn:Hv; simpl.
    + rewrite IH. apply valid_edgeb_iff in Hv. split.
      * intros H. constructor; assumption.
      * intros H. inversion H; assumption.
    + apply valid_edgeb_false_iff in Hv. split; [discriminate |].
      intros H. inversion H; contradiction.
Qed.

Lemma first_invalid_some (n : Z) (records : list Edge) (e : Edge) :
  first_invalid n records = Some e ->
  exists pre post,
    records = pre ++ e :: post
    /\ Forall (valid_edge n) pre /\ ~ valid_edge n e.
Proof.
  unfold first_invalid. induction records as [| e' records IH]; simpl.
  - discriminate.
  - destruct (valid_edgeb n e') eqn:Hv; simpl.
    + intros H. destruct (IH H) as (pre & post & Heq & Hpre & He).
      exists (e' :: pre), post. subst records. repeat split; trivial.
      constructor; [apply valid_edgeb_iff |]; assumption.
    + intros H. injection H as <-. exists [], records.
      repeat split; [constructor | apply valid_edgeb_false_iff; assumption].
Qed.

Lemma first_invalid_exists (n : Z) (records : list Edge) :
  Exists (fun e => ~ valid_edge n e) records ->
  exists e, first_invalid n records = Some e.
Proof.
  intros H. destruct (first_invalid n records) as [e |] eqn:E.
  - exists e. reflexivity.
  - apply first_invalid_none in E. apply Exists_exists in H.
    destruct H as (e & Hin & Hne). rewrite Forall_forall in E.
    elim Hne. apply E. assumption.
Qed.

(** The header cannot be read from a file of fewer than two bytes. *)
Lemma readGraph_short (fs : FileSystem) (filename : string)
    (input : list byte) :
  fs filename = inl input ->
  (List.length input < 2)%nat ->
  readGraph fs filename
  = Some (failed (ErrNumVertices
                    match input with
                    | [] => io.EOF
                    | _ => io.ErrUnexpectedEOF
                    end)).
Proof.
  intros Hfs Hlen. unfold readGraph. rewrite Hfs.
  destruct input as [| b0 [| b1 rest]]; simpl in Hlen; try lia; reflexivity.
Qed.

(** What the decoder returns on a file that holds a header: it always
    returns, and the case is decided by the first invalid record and by the
    number of bytes left after the last complete record. *)
Lemma readGraph_outcome (fs : FileSystem) (filename : string)
    (input : list byte) :
  fs filename = inl input ->
  (2 <= List.length input)%nat ->
  readGraph fs filename
  = Some
      match first_invalid (header_value input) (records_of input) with
      | Some e => failed (ErrIndices (from e) (to e))
      | None =>
          match ((List.length input - 2) mod 6)%nat with
          | O => (header_value input, records_of input, None)
          | r => failed (truncation_error r)
          end
      end.
Proof.
  intros Hfs Hlen. unfold readGraph. rewrite Hfs.
  destruct input as [| b0 [| b1 body]]; simpl in Hlen; try lia.
  cbn [binary.Read io.ReadFull2]. fold (int16_of b0 b1).
  rewrite readEdges_outcome by lia.
  unfold first_invalid, records_of, header_value. cbn [skipn List.length].
  replace (S (S (List.length body)) - 2)%nat with (List.length body) by lia.
  reflexivity.
Qed.

(** The decoder returns on every file system and every file name. *)
Lemma readGraph_returns (fs : FileSystem) (filename : string) :
  exists result, readGraph fs filename = Some result.
Proof.
  destruct (fs filename) as [input | err] eqn:Hfs.
  - destruct (Nat.lt_ge_cases (List.length input) 2) as [Hlt | Hge].
    + eexists. apply (readGraph_short _ _ _ Hfs Hlt).
    + eexists. apply (readGraph_outcome _ _ _ Hfs Hge).
  - eexists. unfold readGraph. rewrite Hfs. reflexivity.
Qed.

(** A decode that succeeds read a file with a header and whole records,
    all of them valid, and returns the header's value and those records. *)
Lemma readGraph_success (fs : FileSystem) (filename : string)
    (n : Z) (edges : list Edge) :
  readGraph fs filename = Some (n, edges, None) ->
  exists input,
    fs filename = inl input
    /\ List.length input = (2 + 6 * List.length edges)%nat
    /\ n = header_value input
    /\ edges = records_of input
    /\ Forall (valid_edge n) edges.
Proof.
  intros H. destruct (fs filename) as [input | err] eqn:Hfs.
  - exists input. split; [reflexivity |].
    destruct (Nat.lt_ge_cases (List.length input) 2) as [Hlt | Hge].
    + rewrite (readGraph_short _ _ _ Hfs Hlt) in H. discriminate.
    + rewrite (readGraph_outcome _ _ _ Hfs Hge) in H.
      destruct (first_invalid _ _) as [e |] eqn:Hinv; [discriminate |].
      destruct ((List.length input - 2) mod 6)%nat eqn:Hmod;
        [| discriminate].
      injection H as Hn He. subst n edges.
      apply first_invalid_none in Hinv. repeat split; trivial.
      unfold records_of.
      destruct (complete_records_length (skipn 2 input)) as (r & Hr & Hl).
      rewrite length_skipn in Hl.
      rewrite Hl, Nat.add_comm, Nat.mul_comm, Nat.Div0.mod_add in Hmod.
      rewrite Nat.mod_small in Hmod by assumption. lia.
  - unfold readGraph in H. rewrite Hfs in H. discriminate.
Qed.

(** The records of an encoded edge list are the edges. *)
Lemma complete_records_encode (edges : list Edge) :
  Forall Edge_int16 edges ->
  complete_records (flat_map encode_edge edges) = edges.
Proof.
  induction 1 as [| e edges (Hf & Ht & Hw) _ IH]; [reflexivity |].
  cbn [flat_map encode_edge encode_int16 app complete_records].
  rewrite !int16_of_encode, IH by assumption.
  destruct e; reflexivity.
Qed.

Lemma encode_edges_length (edges : list Edge) :
  List.length (flat_map encode_edge edges) = (6 * List.length edges)%nat.
Proof.
  induction edges as [| e edges IH]; [reflexivity |].
  cbn [flat_map encode_edge encode_int16 app List.length]. lia.
Qed.

(** ** The decimal text of an integer *)

Lemma digit_value_digit (v : Z) :
  0 <= v <= 9 -> digit_value (fmt.digit v) = Some v.
Proof.
  intros Hv.
  assert (H : v = 0 \/ v = 1 \/ v = 2 \/ v = 3 \/ v = 4 \/ v = 5 \/ v = 6
              \/ v = 7 \/ v = 8 \/ v = 9) by lia.
  repeat (destruct H as [-> | H]; [reflexivity |]). subst v. reflexivity.
Qed.

Lemma digit_not_newline (v : Z) :
  0 <= v <= 9 -> Ascii.eqb (fmt.digit v) "010"%char = false.
Proof.
  intros Hv.
  assert (H : v = 0 \/ v = 1 \/ v = 2 \/ v = 3 \/ v = 4 \/ v = 5 \/ v = 6
              \/ v = 7 \/ v = 8 \/ v = 9) by lia.
  repeat (destruct H as [-> | H]; [reflexivity |]). subst v. reflexivity.
Qed.

(** Reading the digits the loop produced gives the number back. *)
Lemma read_fmtDigits (fuel : nat) :
  forall (u : Z) (buf : string),
    0 <= u < 10 ^ Z.of_nat fuel ->
    read_digits 0 (fmt.fmtDigits fuel u buf) = read_digits u buf.
Proof.
  induction fuel as [| fuel IH]; intros u buf Hu.
  - simpl in *. replace u with 0 by lia. reflexivity.
  - cbn [fmt.fmtDigits]. destruct (Z.geb_spec u 10) as [Hge | Hlt].
    + cbv zeta. rewrite IH.
      * cbn [read_digits]. rewrite digit_value_digit.
        -- f_equal. Z.div_mod_to_equations. lia.
        -- Z.div_mod_to_equations. lia.
      * rewrite Nat2Z.inj_succ, Z.pow_succ_r in Hu by lia.
        Z.div_mod_to_equations. lia.
    + cbn [read_digits]. rewrite digit_value_digit by lia.
      f_equal; lia.
Qed.

Lemma fmtDigits_not_empty (fuel : nat) :
  forall (u : Z) (buf : string),
    (0 < fuel)%nat \/ buf <> EmptyString ->
    fmt.fmtDigits fuel u buf <> EmptyString.
Proof.
  induction fuel as [| fuel IH]; intros u buf H.
  - destruct H as [H | H]; [lia | exact H].
  - cbn [fmt.fmtDigits]. destruct (u >=? 10).
    + apply IH. right. discriminate.
    + discriminate.
Qed.

(** The text [%d] writes is the base-10 signed decimal of the value. *)
Lemma read_decimal_d (v : Z) :
  - 10 ^ 20 < v < 10 ^ 20 -> read_decimal (fmt.d v) = Some v.
Proof.
  intros Hv. unfold fmt.d. destruct (Z.ltb_spec v 0) as [Hneg | Hpos].
  - cbn [read_decimal]. change (Ascii.eqb "-" "-") with true. cbv iota.
    pose proof (read_fmtDigits 20 (- v) "" ltac:(simpl Z.of_nat; lia)) as H.
    pose proof (fmtDigits_not_empty 20 (- v) "" ltac:(left; lia)) as Hne.
    destruct (fmt.fmtDigits 20 (- v) "") as [| c s]; [congruence |].
    rewrite H. simpl. f_equal. lia.
  - pose proof (read_fmtDigits 20 v "" ltac:(simpl Z.of_nat; lia)) as H.
    pose proof (fmtDigits_not_empty 20 v "" ltac:(left; lia)) as Hne.
    destruct (fmt.fmtDigits 20 v "") as [| c s]; [congruence |].
    cbn [read_decimal]. destruct (Ascii.eqb_spec c "-") as [-> | Hc].
    + simpl in H. discriminate.
    + exact H.
Qed.

Lemma read_decimal_int16 (v : Z) :
  is_int16 v -> read_decimal (fmt.d v) = Some v.
Proof.
  unfold is_int16. intros Hv. apply read_decimal_d.
  change (10 ^ 20) with 100000000000000000000. lia.
Qed.

(** ** Lines *)

Lemma no_newline_app (s1 s2 : string) :
  no_newline (s1 ++ s2)%string = no_newline s1 && no_newline s2.
Proof.
  induction s1 as [| c s1 IH]; simpl; [reflexivity |].
  rewrite IH, andb_assoc. reflexivity.
Qed.

Lemma fmtDigits_no_newline (fuel : nat) :
  forall (u : Z) (buf : string),
    0 <= u -> no_newline buf = true ->
    no_newline (fmt.fmtDigits fuel u buf) = true.
Proof.
  induction fuel as [| fuel IH]; intros u buf Hu Hbuf; [exact Hbuf |].
  cbn [fmt.fmtDigits]. destruct (Z.geb_spec u 10) as [Hge | Hlt].
  - cbv zeta. apply IH.
    + Z.div_mod_to_equations. lia.
    + cbn [no_newline]. rewrite digit_not_newline, Hbuf; [reflexivity |].
      Z.div_mod_to_equations. lia.
  - cbn [no_newline]. rewrite digit_not_newline, Hbuf by lia. reflexivity.
Qed.

Lemma d_no_newline (v : Z) : no_newline (fmt.d v) = true.
Proof.
  unfold fmt.d. destruct (Z.ltb_spec v 0).
  - cbn [no_newline]. rewrite fmtDigits_no_newline by (trivial; lia).
    reflexivity.
  - apply fmtDigits_no_newline; [lia | reflexivity].
Qed.

Lemma Sprintf_edge_no_newline (e : Edge) : no_newline (Sprintf_edge e) = true.
Proof.
  unfold Sprintf_edge.
  rewrite !no_newline_app, !d_no_newline. reflexivity.
Qed.

Lemma split_lines_line (l : string) :
  forall cur rest : string,
    no_newline l = true ->
    split_lines cur (l ++ newline ++ rest)%string
    = (cur ++ l)%string :: split_lines "" rest.
Proof.
  induction l as [| c l IH]; intros cur rest Hl.
  - simpl. f_equal. clear. induction cur as [| c cur IH]; simpl; congruence.
  - simpl in Hl. apply andb_true_iff in Hl. destruct Hl as [Hc Hl].
    apply negb_true_iff in Hc.
    change (String c l ++ newline ++ rest)%string
      with (String c (l ++ newline ++ rest)%string).
    cbn [split_lines]. rewrite Hc, IH by assumption.
    f_equal. clear. induction cur as [| c' cur IH]; simpl; congruence.
Qed.

(** A text built from lines with no newline in them has those lines. *)
Lemma lines_text_of_lines (ls : list string) :
  Forall (fun l => no_newline l = true) ls ->
  lines (text_of_lines ls) = ls.
Proof.
  unfold lines. induction 1 as [| l ls Hl _ IH]; [reflexivity |].
  cbn [text_of_lines fold_right].
  rewrite split_lines_line by assumption.
  fold (text_of_lines ls). rewrite IH. reflexivity.
Qed.

(** ** The emitter on a disk that does not fail *)

Lemma append_assoc (s1 s2 s3 : string) :
  ((s1 ++ s2) ++ s3 = s1 ++ (s2 ++ s3))%string.
Proof.
  induction s1 as [| c s1 IH]; simpl; congruence.
Qed.

Lemma writeLines_reliable (disk : Disk) (edges : list Edge) :
  (forall i, write_err disk i = None) ->
  forall (i : nat) (content : string),
    writeLines disk i content edges
    = ((content ++ text_of_lines (map Sprintf_edge edges))%string, None).
Proof.
  intros Hw. induction edges as [| e edges IH]; intros i content.
  - simpl. f_equal. clear. induction content; simpl; congruence.
  - cbn [writeLines]. unfold Fprintln. rewrite Hw, IH.
    cbn [map text_of_lines fold_right]. fold (text_of_lines (map Sprintf_edge edges)).
    rewrite !append_assoc. reflexivity.
Qed.

(** On a reliable disk the emitter returns no error and leaves a file
    whose text is the header line followed by one line per edge. *)
Lemma writeEdges_reliable (disk : Disk) (filename : string)
    (edges : list Edge) :
  reliable disk filename ->
  writeEdges disk filename edges
  = (Some (text_of_lines (header :: map Sprintf_edge edges)), None).
Proof.
  intros [Hc Hw]. unfold writeEdges, Fprintln. rewrite Hc, Hw.
  rewrite writeLines_reliable by assumption.
  cbn [text_of_lines fold_right]. rewrite append_assoc. reflexivity.
Qed.

(** ** Decoding an encoded graph *)

Lemma complete_records_int16 (l : list byte) :
  Forall Edge_int16 (complete_records l).
Proof.
  induction l as [l Hl | b0 b1 b2 b3 b4 b5 rest IH] using six_bytes_ind.
  - rewrite complete_records_short by assumption. constructor.
  - cbn [complete_records]. constructor; [| exact IH].
    repeat split; apply int16_of_range.
Qed.

Lemma header_value_int16 (input : list byte) : is_int16 (header_value input).
Proof.
  destruct input as [| b0 [| b1 rest]]; simpl;
    try (unfold is_int16; lia). apply int16_of_range.
Qed.

(** Decoding the binary layout of a graph whose edges are valid gives the
    graph back. *)
Lemma readGraph_encode (fs : FileSystem) (filename : string)
    (N : Z) (E : list Edge) :
  is_int16 N -> Forall Edge_int16 E -> Forall (valid_edge N) E ->
  fs filename = inl (encode_graph N E) ->
  readGraph fs filename = Some (N, E, None).
Proof.
  intros HN HE Hvalid Hfs.
  assert (Hhead : header_value (encode_graph N E) = N).
  { unfold encode_graph, encode_int16. cbn [app header_value].
    apply int16_of_encode. assumption. }
  assert (Hrecs : records_of (encode_graph N E) = E).
  { unfold records_of, encode_graph, encode_int16. cbn [app skipn].
    apply complete_records_encode. assumption. }
  assert (Hlen : List.length (encode_graph N E) = (2 + 6 * List.length E)%nat).
  { unfold encode_graph. rewrite length_app, encode_edges_length.
    reflexivity. }
  rewrite (readGraph_outcome _ _ _ Hfs) by lia.
  rewrite Hhead, Hrecs, Hlen.
  apply first_invalid_none in Hvalid. rewrite Hvalid.
  replace (2 + 6 * List.length E - 2)%nat with (0 + List.length E * 6)%nat
    by lia.
  rewrite Nat.Div0.mod_add. reflexivity.
Qed.

(** ** The claims *)

(** C1.  For every vertex count [N >= 0] and every edge sequence [E] whose
    edges have [from] and [to] in [[0, N)], reading the file made of the
    little-endian [int16] encoding of [N] followed by the little-endian
    [int16] triples of [E] in order succeeds and returns exactly [N] and
    exactly [E], in the same order. *)
Theorem C1_decode_inverts_encode (fs : FileSystem) (filename : string)
    (N : Z) (E : list Edge) :
  is_int16 N -> 0 <= N ->
  Forall Edge_int16 E -> Forall (valid_edge N) E ->
  fs filename = inl (encode_graph N E) ->
  readGraph fs filename = Some (N, E, None).
Proof.
  intros HN _ HE Hvalid Hfs. apply readGraph_encode; assumption.
Qed.

Lemma C1_witness :
  let N := 2 in
  let E := [mkEdge 0 1 10; mkEdge 1 0 (-5)] in
  let fs := one_file "graph.bin" (encode_graph N E) in
  is_int16 N /\ 0 <= N
  /\ Forall Edge_int16 E /\ Forall (valid_edge N) E
  /\ fs "graph.bin" = inl (encode_graph N E)
  /\ readGraph fs "graph.bin" = Some (N, E, None).
Proof.
  intros N E fs.
  assert (H1 : is_int16 N) by concrete.
  assert (H2 : 0 <= N) by concrete.
  assert (H3 : Forall Edge_int16 E) by concrete.
  assert (H4 : Forall (valid_edge N) E) by concrete.
  assert (H5 : fs "graph.bin" = inl (encode_graph N E)) by reflexivity.
  exact (conj H1 (conj H2 (conj H3 (conj H4 (conj H5
           (C1_decode_inverts_encode fs "graph.bin" N E H1 H2 H3 H4 H5)))))).
Defined.

(** C2.  Whenever some complete record of the input violates
    [0 <= from < numVertices] or [0 <= to < numVertices], the decode fails
    as a whole: it returns no edge and a validation error that carries, and
    prints in decimal, the [from] and [to] of the first such record.  In
    particular, with [numVertices = 3] the single record
    [(from=3, to=0, weight=5)] is rejected with an error naming [from=3]. *)
Theorem C2_invalid_record_rejected :
  (forall (fs : FileSystem) (filename : string) (input : list byte),
      fs filename = inl input ->
      Exists (fun e => ~ valid_edge (header_value input) e)
             (records_of input) ->
      exists e,
        first_invalid (header_value input) (records_of input) = Some e
        /\ In e (records_of input)
        /\ ~ valid_edge (header_value input) e
        /\ readGraph fs filename
           = Some (0, [], Some (ErrIndices (from e) (to e)))
        /\ classify (ErrIndices (from e) (to e)) = ValidationError
        /\ Error_text (ErrIndices (from e) (to e))
           = ("недопустимые индексы вершин: from=" ++ fmt.d (from e)
              ++ ", to=" ++ fmt.d (to e))%string
        /\ read_decimal (fmt.d (from e)) = Some (from e)
        /\ read_decimal (fmt.d (to e)) = Some (to e))
  /\ (forall (fs : FileSystem) (filename : string),
         fs filename = inl [x03; x00; x03; x00; x00; x00; x05; x00] ->
         readGraph fs filename = Some (0, [], Some (ErrIndices 3 0))
         /\ Error_text (ErrIndices 3 0)
            = "недопустимые индексы вершин: from=3, to=0").
Proof.
  split.
  - intros fs filename input Hfs Hex.
    destruct (first_invalid_exists _ _ Hex) as (e & He).
    destruct (first_invalid_some _ _ _ He) as (pre & post & Heq & _ & Hne).
    assert (Hin : In e (records_of input)).
    { rewrite Heq. apply in_or_app. right. left. reflexivity. }
    assert (Hlen : (2 <= List.length input)%nat).
    { destruct input as [| b0 [| b1 body]]; simpl in Hin; try contradiction.
      simpl. lia. }
    pose proof (complete_records_int16 (skipn 2 input)) as Hint.
    rewrite Forall_forall in Hint.
    destruct (Hint e Hin) as (Hf & Ht & _).
    exists e. rewrite (readGraph_outcome _ _ _ Hfs Hlen), He.
    repeat split; trivial; apply read_decimal_int16; assumption.
  - intros fs filename Hfs.
    rewrite (readGraph_outcome _ _ _ Hfs) by (simpl; lia).
    split; reflexivity.
Qed.

Lemma C2_witness :
  let input := [x03; x00; x03; x00; x00; x00; x05; x00] in
  let fs := one_file "graph.bin" input in
  fs "graph.bin" = inl input
  /\ Exists (fun e => ~ valid_edge (header_value input) e) (records_of input)
  /\ readGraph fs "graph.bin" = Some (0, [], Some (ErrIndices 3 0))
  /\ exists e,
      first_invalid (header_value input) (records_of input) = Some e
      /\ readGraph fs "graph.bin"
         = Some (0, [], Some (ErrIndices (from e) (to e))).
Proof.
  intros input fs.
  assert (H1 : fs "graph.bin" = inl input) by reflexivity.
  assert (H2 : Exists (fun e => ~ valid_edge (header_value input) e)
                 (records_of input)).
  { change (records_of input) with [mkEdge 3 0 5].
    change (header_value input) with 3.
    constructor. unfold valid_edge. simpl. lia. }
  refine (conj H1 (conj H2 (conj _ _))).
  - exact (proj1 (proj2 C2_invalid_record_rejected fs "graph.bin" H1)).
  - destruct (proj1 C2_invalid_record_rejected fs "graph.bin" input H1 H2)
      as (e & He & _ & _ & Hr & _).
    exists e. split; assumption.
Defined.

(** C3.  On a disk that does not fail, for every edge sequence the emitter
    writes the header line first, then one line per edge in input order,
    each [(from, to, weight)] with the three values in base-10 signed
    decimal, separated by a comma and a space and enclosed in parentheses;
    the indices are the decoded values themselves (the decimal text reads
    back as the value, with no offset).  The edges [(0,1,10)] and
    [(1,0,-5)] give the body lines [(0, 1, 10)] and [(1, 0, -5)]. *)
Theorem C3_emit_format :
  (forall (disk : Disk) (filename : string) (edges : list Edge),
      reliable disk filename ->
      exists content,
        writeEdges disk filename edges = (Some content, None)
        /\ lines content
           = header
             :: map (fun e => ("(" ++ fmt.d (from e) ++ ", " ++ fmt.d (to e)
                               ++ ", " ++ fmt.d (weight e) ++ ")")%string)
                    edges)
  /\ (forall v : Z, is_int16 v -> read_decimal (fmt.d v) = Some v)
  /\ (forall (disk : Disk) (filename : string),
         reliable disk filename ->
         exists content,
           writeEdges disk filename [mkEdge 0 1 10; mkEdge 1 0 (-5)]
           = (Some content, None)
           /\ lines content = [header; "(0, 1, 10)"; "(1, 0, -5)"]).
Proof.
  assert (H : forall disk filename edges,
             reliable disk filename ->
             exists content,
               writeEdges disk filename edges = (Some content, None)
               /\ lines content = header :: map Sprintf_edge edges).
  { intros disk filename edges Hd.
    exists (text_of_lines (header :: map Sprintf_edge edges)).
    split; [apply writeEdges_reliable; assumption |].
    apply lines_text_of_lines. constructor; [reflexivity |].
    apply Forall_forall. intros l Hl. apply in_map_iff in Hl.
    destruct Hl as (e & <- & _). apply Sprintf_edge_no_newline. }
  split; [exact H | split; [exact read_decimal_int16 |]].
  intros disk filename Hd. exact (H disk filename _ Hd).
Qed.

Lemma C3_witness :
  reliable good_disk "output.txt"
  /\ exists content,
      writeEdges good_disk "output.txt" [mkEdge 0 0 7; mkEdge 0 1 (-32768)]
      = (Some content, None)
      /\ lines content = [header; "(0, 0, 7)"; "(0, 1, -32768)"].
Proof.
  assert (H1 : reliable good_disk "output.txt") by concrete.
  refine (conj H1 _).
  exact (proj1 C3_emit_format good_disk "output.txt"
           [mkEdge 0 0 7; mkEdge 0 1 (-32768)] H1).
Defined.

(** C4, as the specification states it, fails: a file that holds only the
    header [0xFF 0xFF] decodes with no error to the vertex count [-1]. *)
Lemma C4_counterexample :
  ~ (forall (fs : FileSystem) (filename : string) (n : Z)
            (edges : list Edge),
        readGraph fs filename = Some (n, edges, None) -> 0 <= n).
Proof.
  intros H.
  specialize (H (one_file "graph.bin" [xff; xff]) "graph.bin" (-1) []
                eq_refl).
  lia.
Qed.

(** C4, amended.  For every input on which the decode succeeds, the
    returned vertex count is the signed 16-bit value of the header, hence in
    [[-32768, 32767]]; it is at least 0 whenever an edge is returned, and a
    negative count comes only with an empty edge sequence. *)
Theorem C4_vertex_count_of_success (fs : FileSystem) (filename : string)
    (n : Z) (edges : list Edge) :
  readGraph fs filename = Some (n, edges, None) ->
  (exists input, fs filename = inl input /\ n = header_value input)
  /\ is_int16 n
  /\ (edges <> [] -> 0 <= n)
  /\ (n < 0 -> edges = []).
Proof.
  intros H.
  destruct (readGraph_success _ _ _ _ H)
    as (input & Hfs & _ & Hn & _ & Hvalid).
  assert (Hpos : edges <> [] -> 0 <= n).
  { destruct edges as [| e edges]; [congruence |]. intros _.
    inversion Hvalid as [| ? ? [He _] _]. lia. }
  repeat split.
  - exists input. split; assumption.
  - rewrite Hn. apply header_value_int16.
  - rewrite Hn. apply header_value_int16.
  - exact Hpos.
  - intros Hneg. destruct edges as [| e edges]; [reflexivity |].
    assert (0 <= n) by (apply Hpos; discriminate). lia.
Qed.

Lemma C4_witness :
  let fs := one_file "graph.bin" [xff; xff] in
  readGraph fs "graph.bin" = Some (-1, [], None)
  /\ (exists input, fs "graph.bin" = inl input /\ -1 = header_value input)
  /\ is_int16 (-1)
  /\ (@nil Edge <> [] -> 0 <= -1)
  /\ (-1 < 0 -> @nil Edge = []).
Proof.
  intros fs.
  assert (H1 : readGraph fs "graph.bin" = Some (-1, [], None))
    by reflexivity.
  exact (conj H1 (C4_vertex_count_of_success fs "graph.bin" (-1) [] H1)).
Defined.

(** C5.  For every [k >= 0], an input of exactly [2 + 6*k] bytes whose
    records all have [from] and [to] in [[0, numVertices)] decodes with no
    error to exactly [k] edges, the records of the input in order: the end
    of the input met at the start of a record ends the decode normally. *)
Theorem C5_clean_end_of_input (fs : FileSystem) (filename : string)
    (input : list byte) (k : nat) :
  fs filename = inl input ->
  List.length input = (2 + 6 * k)%nat ->
  Forall (valid_edge (header_value input)) (records_of input) ->
  readGraph fs filename
  = Some (header_value input, records_of input, None)
  /\ List.length (records_of input) = k.
Proof.
  intros Hfs Hlen Hvalid.
  rewrite (readGraph_outcome _ _ _ Hfs) by lia.
  apply first_invalid_none in Hvalid. rewrite Hvalid, Hlen.
  replace (2 + 6 * k - 2)%nat with (0 + k * 6)%nat by lia.
  rewrite Nat.Div0.mod_add. split; [reflexivity |].
  unfold records_of. apply (complete_records_count _ k 0); [| lia].
  rewrite length_skipn. lia.
Qed.

Lemma C5_witness :
  let input := [x02; x00; x00; x00; x01; x00; x0a; x00;
                x01; x00; x00; x00; xfb; xff] in
  let fs := one_file "graph.bin" input in
  fs "graph.bin" = inl input
  /\ List.length input = (2 + 6 * 2)%nat
  /\ Forall (valid_edge (header_value input)) (records_of input)
  /\ readGraph fs "graph.bin"
     = Some (header_value input, records_of input, None)
  /\ List.length (records_of input) = 2%nat.
Proof.
  intros input fs.
  assert (H1 : fs "graph.bin" = inl input) by reflexivity.
  assert (H2 : List.length input = (2 + 6 * 2)%nat) by reflexivity.
  assert (H3 : Forall (valid_edge (header_value input)) (records_of input)).
  { change (records_of input) with [mkEdge 0 1 10; mkEdge 1 0 (-5)].
    change (header_value input) with 2. concrete. }
  exact (conj H1 (conj H2 (conj H3
           (C5_clean_end_of_input fs "graph.bin" input 2 H1 H2 H3)))).
Defined.

(** C6, as the specification states it, fails: nine zero bytes are a header
    [numVertices = 0], one complete record [(0, 0, 0)] and one byte more,
    that is [2 + 6*1 + 1] bytes, and the decode fails on the record with a
    validation error, not with a format error. *)
Lemma C6_counterexample :
  ~ (forall (fs : FileSystem) (filename : string) (input : list byte)
            (k r : nat),
        fs filename = inl input ->
        (1 <= r <= 5)%nat ->
        List.length input = (2 + 6 * k + r)%nat ->
        exists err,
          readGraph fs filename = Some (0, [], Some err)
          /\ classify err = FormatError).
Proof.
  intros H.
  destruct (H (one_file "graph.bin"
                 [x00; x00; x00; x00; x00; x00; x00; x00; x00])
              "graph.bin" _ 1%nat 1%nat eq_refl ltac:(lia) eq_refl)
    as (err & Hr & Hc).
  vm_compute in Hr. injection Hr as <-. discriminate.
Qed.

(** C6, amended.  For every [k >= 0] and [1 <= r <= 5], an input of
    [2 + 6*k + r] bytes fails the decode and no edge is returned; the error
    is a format error (the truncated record) when the [k] complete records
    all have valid indices, and the validation error of the first invalid
    record otherwise. *)
Theorem C6_truncated_record (fs : FileSystem) (filename : string)
    (input : list byte) (k r : nat) :
  fs filename = inl input ->
  (1 <= r <= 5)%nat ->
  List.length input = (2 + 6 * k + r)%nat ->
  exists err,
    readGraph fs filename = Some (0, [], Some err)
    /\ List.length (records_of input) = k
    /\ (Forall (valid_edge (header_value input)) (records_of input) ->
        err = truncation_error r /\ classify err = FormatError)
    /\ (forall e,
           first_invalid (header_value input) (records_of input) = Some e ->
           err = ErrIndices (from e) (to e)
           /\ classify err = ValidationError).
Proof.
  intros Hfs Hr Hlen.
  assert (Hk : List.length (records_of input) = k).
  { unfold records_of. apply (complete_records_count _ k r); [| lia].
    rewrite length_skipn. lia. }
  rewrite (readGraph_outcome _ _ _ Hfs) by lia.
  rewrite Hlen.
  replace (2 + 6 * k + r - 2)%nat with (r + k * 6)%nat by lia.
  rewrite Nat.Div0.mod_add, Nat.mod_small by lia.
  destruct (first_invalid _ _) as [e |] eqn:Hinv.
  - exists (ErrIndices (from e) (to e)). repeat split; trivial.
    + apply first_invalid_none in H. congruence.
    + apply first_invalid_none in H. congruence.
    + injection H as <-. reflexivity.
  - exists (truncation_error r).
    destruct r as [| r]; [lia |]. repeat split; trivial;
      try discriminate; apply truncation_error_class.
Qed.

Lemma C6_witness :
  let input := [x01; x00; x00; x00; x00; x00; x07; x00; x00; x00; x00] in
  let fs := one_file "graph.bin" input in
  fs "graph.bin" = inl input
  /\ (1 <= 3 <= 5)%nat
  /\ List.length input = (2 + 6 * 1 + 3)%nat
  /\ exists err,
      readGraph fs "graph.bin" = Some (0, [], Some err)
      /\ List.length (records_of input) = 1%nat
      /\ (Forall (valid_edge (header_value input)) (records_of input) ->
          err = truncation_error 3 /\ classify err = FormatError)
      /\ (forall e,
             first_invalid (header_value input) (records_of input) = Some e ->
             err = ErrIndices (from e) (to e)
             /\ classify err = ValidationError).
Proof.
  intros input fs.
  assert (H1 : fs "graph.bin" = inl input) by reflexivity.
  assert (H2 : (1 <= 3 <= 5)%nat) by lia.
  assert (H3 : List.length input = (2 + 6 * 1 + 3)%nat) by reflexivity.
  exact (conj H1 (conj H2 (conj H3
           (C6_truncated_record fs "graph.bin" input 1 3 H1 H2 H3)))).
Defined.

(** C7.  On every input of fewer than two bytes, the empty input and any
    one-byte input alike, the decode fails with a format error, the
    truncated [numVertices] header, and returns the zero count and no
    edge. *)
Theorem C7_truncated_header (fs : FileSystem) (filename : string)
    (input : list byte) :
  fs filename = inl input ->
  (List.length input < 2)%nat ->
  exists err,
    readGraph fs filename = Some (0, [], Some (ErrNumVertices err))
    /\ classify (ErrNumVertices err) = FormatError
    /\ (input = [] -> err = io.EOF)
    /\ (List.length input = 1%nat -> err = io.ErrUnexpectedEOF).
Proof.
  intros Hfs Hlen.
  rewrite (readGraph_short _ _ _ Hfs Hlen).
  eexists. split; [reflexivity |]. split; [reflexivity |].
  destruct input as [| b0 [| b1 rest]]; simpl in *; split;
    intros; try reflexivity; try discriminate; lia.
Qed.

Lemma C7_witness :
  let fs := one_file "graph.bin" [x05] in
  fs "graph.bin" = inl [x05]
  /\ (List.length [x05] < 2)%nat
  /\ exists err,
      readGraph fs "graph.bin" = Some (0, [], Some (ErrNumVertices err))
      /\ classify (ErrNumVertices err) = FormatError
      /\ ([x05] = [] -> err = io.EOF)
      /\ (List.length [x05] = 1%nat -> err = io.ErrUnexpectedEOF).
Proof.
  intros fs.
  assert (H1 : fs "graph.bin" = inl [x05]) by reflexivity.
  assert (H2 : (List.length [x05] < 2)%nat) by (simpl; lia).
  exact (conj H1 (conj H2
           (C7_truncated_header fs "graph.bin" [x05] H1 H2))).
Defined.

(** C8.  An edge whose weight is [-32768], the least [int16], goes through
    the decoder and the emitter unchanged: at whatever place [i] it stands
    in a valid encoded graph, the decoder returns it at place [i] with the
    weight [-32768], and the emitter writes for it, as line [i + 1] of the
    report, a line whose third number is the text [-32768]. *)
Theorem C8_least_weight_preserved (fs : FileSystem) (filename : string)
    (disk : Disk) (output : string) (N : Z) (E : list Edge) (i : nat)
    (e : Edge) :
  is_int16 N -> Forall Edge_int16 E -> Forall (valid_edge N) E ->
  nth_error E i = Some e ->
  weight e = -32768 ->
  fs filename = inl (encode_graph N E) ->
  reliable disk output ->
  exists edges content,
    readGraph fs filename = Some (N, edges, None)
    /\ nth_error edges i = Some (mkEdge (from e) (to e) (-32768))
    /\ writeEdges disk output edges = (Some content, None)
    /\ nth_error (lines content) (S i)
       = Some ("(" ++ fmt.d (from e) ++ ", " ++ fmt.d (to e)
               ++ ", -32768)")%string.
Proof.
  intros HN HE Hvalid Hnth Hw Hfs Hd.
  exists E, (text_of_lines (header :: map Sprintf_edge E)).
  split; [apply readGraph_encode; assumption |].
  split; [rewrite Hnth; destruct e; simpl in Hw; subst; reflexivity |].
  split; [apply writeEdges_reliable; assumption |].
  rewrite lines_text_of_lines.
  - cbn [nth_error]. rewrite (map_nth_error _ _ _ Hnth).
    unfold Sprintf_edge. rewrite Hw. reflexivity.
  - constructor; [reflexivity |].
    apply Forall_forall. intros l Hl. apply in_map_iff in Hl.
    destruct Hl as (e' & <- & _). apply Sprintf_edge_no_newline.
Qed.

Lemma C8_witness :
  let N := 2 in
  let E := [mkEdge 0 1 10; mkEdge 1 0 (-32768)] in
  let e := mkEdge 1 0 (-32768) in
  let fs := one_file "graph.bin" (encode_graph N E) in
  is_int16 N /\ Forall Edge_int16 E /\ Forall (valid_edge N) E
  /\ nth_error E 1 = Some e
  /\ weight e = -32768
  /\ fs "graph.bin" = inl (encode_graph N E)
  /\ reliable good_disk "output.txt"
  /\ exists edges content,
      readGraph fs "graph.bin" = Some (N, edges, None)
      /\ nth_error edges 1 = Some (mkEdge (from e) (to e) (-32768))
      /\ writeEdges good_disk "output.txt" edges = (Some content, None)
      /\ nth_error (lines content) 2
         = Some ("(" ++ fmt.d (from e) ++ ", " ++ fmt.d (to e)
                 ++ ", -32768)")%string.
Proof.
  intros N E e fs.
  assert (H1 : is_int16 N) by concrete.
  assert (H2 : Forall Edge_int16 E) by concrete.
  assert (H3 : Forall (valid_edge N) E) by concrete.
  assert (H4 : nth_error E 1 = Some e) by reflexivity.
  assert (H5 : weight e = -32768) by reflexivity.
  assert (H6 : fs "graph.bin" = inl (encode_graph N E)) by reflexivity.
  assert (H7 : reliable good_disk "output.txt") by concrete.
  exact (conj H1 (conj H2 (conj H3 (conj H4 (conj H5 (conj H6 (conj H7
           (C8_least_weight_preserved fs "graph.bin" good_disk "output.txt"
              N E 1 e H1 H2 H3 H4 H5 H6 H7)))))))).
Defined.

(** C9.  On every input whose vertex count is at most 0 and which holds at
    least one complete record, the decode fails with the validation error
    of the first record; and every decode that succeeds with a non-empty
    edge sequence returns a vertex count of at least 1. *)
Theorem C9_no_edge_without_vertex :
  (forall (fs : FileSystem) (filename : string) (input : list byte),
      fs filename = inl input ->
      header_value input <= 0 ->
      records_of input <> [] ->
      exists e rest,
        records_of input = e :: rest
        /\ readGraph fs filename
           = Some (0, [], Some (ErrIndices (from e) (to e)))
        /\ classify (ErrIndices (from e) (to e)) = ValidationError)
  /\ (forall (fs : FileSystem) (filename : string) (n : Z)
             (edges : list Edge),
         readGraph fs filename = Some (n, edges, None) ->
         edges <> [] ->
         1 <= n).
Proof.
  split.
  - intros fs filename input Hfs Hn Hrec.
    destruct (records_of input) as [| e rest] eqn:E; [congruence |].
    exists e, rest. split; [reflexivity |].
    assert (Hlen : (2 <= List.length input)%nat).
    { destruct input as [| b0 [| b1 body]]; try discriminate. simpl. lia. }
    rewrite (readGraph_outcome _ _ _ Hfs Hlen), E.
    unfold first_invalid. cbn [find].
    assert (Hv : valid_edgeb (header_value input) e = false).
    { apply valid_edgeb_false_iff. unfold valid_edge. lia. }
    rewrite Hv. split; reflexivity.
  - intros fs filename n edges H Hne.
    destruct (readGraph_success _ _ _ _ H) as (_ & _ & _ & _ & _ & Hvalid).
    destruct edges as [| e edges]; [congruence |].
    inversion Hvalid as [| ? ? [He _] _]. lia.
Qed.

Lemma C9_witness :
  let input := [x00; x00; x00; x00; x00; x00; x01; x00] in
  let fs := one_file "graph.bin" input in
  fs "graph.bin" = inl input
  /\ header_value input <= 0
  /\ records_of input <> []
  /\ (exists e rest,
         records_of input = e :: rest
         /\ readGraph fs "graph.bin"
            = Some (0, [], Some (ErrIndices (from e) (to e)))
         /\ classify (ErrIndices (from e) (to e)) = ValidationError)
  /\ (let fs' := one_file "graph.bin"
                   [x01; x00; x00; x00; x00; x00; x01; x00] in
      readGraph fs' "graph.bin" = Some (1, [mkEdge 0 0 1], None)
      /\ [mkEdge 0 0 1] <> []
      /\ 1 <= 1).
Proof.
  intros input fs.
  assert (H1 : fs "graph.bin" = inl input) by reflexivity.
  assert (H2 : header_value input <= 0)
    by (change (header_value input) with 0; lia).
  assert (H3 : records_of input <> []) by discriminate.
  refine (conj H1 (conj H2 (conj H3 (conj
            (proj1 C9_no_edge_without_vertex fs "graph.bin" input H1 H2 H3)
            _)))).
  intros fs'.
  assert (H4 : readGraph fs' "graph.bin" = Some (1, [mkEdge 0 0 1], None))
    by reflexivity.
  assert (H5 : [mkEdge 0 0 1] <> []) by discriminate.
  exact (conj H4 (conj H5
           (proj2 C9_no_edge_without_vertex fs' "graph.bin" 1
              [mkEdge 0 0 1] H4 H5))).
Defined.

(** C10.  For the empty edge sequence, on a disk that does not fail, the
    emitter returns no error and the file holds exactly one line, the
    header line, with no edge line after it. *)
Theorem C10_empty_edge_list (disk : Disk) (filename : string) :
  reliable disk filename ->
  exists content,
    writeEdges disk filename [] = (Some content, None)
    /\ content = (header ++ newline)%string
    /\ lines content = [header].
Proof.
  intros Hd. exists (header ++ newline)%string.
  rewrite (writeEdges_reliable _ _ _ Hd).
  repeat split; reflexivity.
Qed.

Lemma C10_witness :
  reliable good_disk "output.txt"
  /\ exists content,
      writeEdges good_disk "output.txt" [] = (Some content, None)
      /\ content = (header ++ newline)%string
      /\ lines content = [header].
Proof.
  assert (H1 : reliable good_disk "output.txt") by concrete.
  exact (conj H1 (C10_empty_edge_list good_disk "output.txt" H1)).
Defined.

(** ** Further properties of the decoder *)

Lemma byte_of_Z_byte (z : Z) (b : byte) :
  z mod 256 = Z.of_N (Byte.to_N b) -> byte_of_Z z = b.
Proof.
  intros H. unfold byte_of_Z. rewrite H, N2Z.id, Byte.of_to_N. reflexivity.
Qed.

(** Encoding the [int16] two bytes hold gives the two bytes back. *)
Lemma encode_int16_of (b0 b1 : byte) :
  encode_int16 (int16_of b0 b1) = [b0; b1].
Proof.
  unfold encode_int16, int16_of, binary.to_int16.
  rewrite Uint16_sum, Z.shiftr_div_pow2 by lia. change (2 ^ 8) with 256.
  pose proof (byte_range b0). pose proof (byte_range b1).
  f_equal; [| f_equal]; apply byte_of_Z_byte;
    Z.div_mod_to_equations; lia.
Qed.

Lemma encode_complete_records (l : list byte) :
  forall k : nat,
    List.length l = (6 * k)%nat ->
    flat_map encode_edge (complete_records l) = l.
Proof.
  induction l as [l Hl | b0 b1 b2 b3 b4 b5 rest IH] using six_bytes_ind;
    intros k Hk.
  - destruct l as [| b l]; [reflexivity | simpl in *; lia].
  - cbn [complete_records flat_map]. unfold encode_edge at 1.
    cbn [from to weight]. rewrite !encode_int16_of.
    rewrite (IH (k - 1)%nat) by (simpl in Hk; lia). reflexivity.
Qed.

Lemma complete_records_app (l m : list byte) :
  forall k : nat,
    List.length l = (6 * k)%nat ->
    complete_records (l ++ m) = complete_records l ++ complete_records m.
Proof.
  induction l as [l Hl | b0 b1 b2 b3 b4 b5 rest IH] using six_bytes_ind;
    intros k Hk.
  - destruct l as [| b l]; [reflexivity | simpl in *; lia].
  - cbn [app complete_records].
    rewrite (IH (k - 1)%nat) by (simpl in Hk; lia). reflexivity.
Qed.

Lemma complete_records_le (l : list byte) :
  (List.length (complete_records l) <= List.length l)%nat.
Proof.
  destruct (complete_records_length l) as (r & _ & H). lia.
Qed.

(** What the decoder returns, for every state of the file system. *)
Lemma readGraph_cases (fs : FileSystem) (filename : string) :
  readGraph fs filename
  = Some
      match fs filename with
      | inr err => failed (ErrOpen filename err)
      | inl input =>
          match input with
          | [] => failed (ErrNumVertices io.EOF)
          | [_] => failed (ErrNumVertices io.ErrUnexpectedEOF)
          | _ =>
              match first_invalid (header_value input) (records_of input)
              with
              | Some e => failed (ErrIndices (from e) (to e))
              | None =>
                  match ((List.length input - 2) mod 6)%nat with
                  | O => (header_value input, records_of input, None)
                  | r => failed (truncation_error r)
                  end
              end
          end
      end.
Proof.
  destruct (fs filename) as [input | err] eqn:Hfs.
  - destruct input as [| b0 [| b1 body]].
    + rewrite (readGraph_short _ _ _ Hfs) by (simpl; lia). reflexivity.
    + rewrite (readGraph_short _ _ _ Hfs) by (simpl; lia). reflexivity.
    + apply (readGraph_outcome _ _ _ Hfs). simpl. lia.
  - unfold readGraph. rewrite Hfs. reflexivity.
Qed.

Lemma truncation_error_inj (r r' : nat) :
  (1 <= r <= 5)%nat -> (1 <= r' <= 5)%nat ->
  truncation_error r = truncation_error r' -> r = r'.
Proof.
  intros Hr Hr' H.
  destruct r as [| [| [| [| [| [| r]]]]]]; try lia;
    destruct r' as [| [| [| [| [| [| r']]]]]]; try lia;
    try reflexivity; discriminate.
Qed.

Lemma mod6_bounds (n : nat) : (n mod 6 < 6)%nat.
Proof. apply Nat.mod_upper_bound. lia. Qed.

(** A decode that succeeds has read a well-formed file: it opens, its
    length is two bytes plus six per returned edge, the count returned is
    the header's, the edges are the records in order, every field is an
    [int16] and every edge meets the validity invariant. *)
Theorem decode_success_well_formed (fs : FileSystem) (filename : string)
    (n : Z) (edges : list Edge) :
  readGraph fs filename = Some (n, edges, None) ->
  exists input,
    fs filename = inl input
    /\ List.length input = (2 + 6 * List.length edges)%nat
    /\ n = header_value input
    /\ edges = records_of input
    /\ Forall Edge_int16 edges
    /\ Forall (valid_edge n) edges.
Proof.
  intros H.
  destruct (readGraph_success _ _ _ _ H)
    as (input & Hfs & Hlen & Hn & He & Hv).
  exists input. repeat split; trivial.
  rewrite He. apply complete_records_int16.
Qed.

Lemma decode_success_well_formed_witness :
  let input := [x02; x00; x00; x00; x01; x00; x0a; x00] in
  let fs := one_file "graph.bin" input in
  readGraph fs "graph.bin" = Some (2, [mkEdge 0 1 10], None)
  /\ exists input',
      fs "graph.bin" = inl input'
      /\ List.length input' = (2 + 6 * List.length [mkEdge 0 1 10])%nat
      /\ 2 = header_value input'
      /\ [mkEdge 0 1 10] = records_of input'
      /\ Forall Edge_int16 [mkEdge 0 1 10]
      /\ Forall (valid_edge 2) [mkEdge 0 1 10].
Proof.
  intros input fs.
  assert (H1 : readGraph fs "graph.bin" = Some (2, [mkEdge 0 1 10], None))
    by reflexivity.
  exact (conj H1
           (decode_success_well_formed fs "graph.bin" 2 [mkEdge 0 1 10] H1)).
Defined.

(** A decode that fails returns nothing else: the count is zero and the
    edge list is empty, whatever had been read before the failure. *)
Theorem decode_failure_returns_nothing (fs : FileSystem)
    (filename : string) (n : Z) (edges : list Edge) (err : Error) :
  readGraph fs filename = Some (n, edges, Some err) ->
  n = 0 /\ edges = [].
Proof.
  rewrite readGraph_cases. intros H. injection H as Hres.
  repeat match type of Hres with
         | context [match ?x with _ => _ end] => destruct x
         end;
    try discriminate; injection Hres as <- <- _; split; reflexivity.
Qed.

Lemma decode_failure_returns_nothing_witness :
  let input := [x02; x00; x00; x00; x01; x00; x0a; x00;
                x02; x00; x00; x00; x01; x00] in
  let fs := one_file "graph.bin" input in
  readGraph fs "graph.bin" = Some (0, [], Some (ErrIndices 2 0))
  /\ 0 = 0 /\ @nil Edge = [].
Proof.
  intros input fs.
  assert (H1 : readGraph fs "graph.bin"
               = Some (0, [], Some (ErrIndices 2 0))) by reflexivity.
  exact (conj H1
           (decode_failure_returns_nothing fs "graph.bin" 0 []
              (ErrIndices 2 0) H1)).
Defined.

(** Encoding what a successful decode returned gives the bytes of the
    file back: the decoder accepts no file but the encoding of its
    result. *)
Theorem encode_inverts_decode (fs : FileSystem) (filename : string)
    (input : list byte) (n : Z) (edges : list Edge) :
  fs filename = inl input ->
  readGraph fs filename = Some (n, edges, None) ->
  encode_graph n edges = input.
Proof.
  intros Hfs H.
  destruct (readGraph_success _ _ _ _ H)
    as (input' & Hfs' & Hlen & Hn & He & _).
  rewrite Hfs in Hfs'. injection Hfs' as <-.
  subst n edges. unfold encode_graph, records_of.
  destruct input as [| b0 [| b1 body]]; simpl in Hlen; try lia.
  cbn [header_value skipn]. rewrite encode_int16_of.
  rewrite (encode_complete_records body
             (List.length (records_of (b0 :: b1 :: body)))).
  - reflexivity.
  - lia.
Qed.

Lemma encode_inverts_decode_witness :
  let input := [x02; x00; x00; x00; x01; x00; xfb; xff] in
  let fs := one_file "graph.bin" input in
  fs "graph.bin" = inl input
  /\ readGraph fs "graph.bin" = Some (2, [mkEdge 0 1 (-5)], None)
  /\ encode_graph 2 [mkEdge 0 1 (-5)] = input.
Proof.
  intros input fs.
  assert (H1 : fs "graph.bin" = inl input) by reflexivity.
  assert (H2 : readGraph fs "graph.bin"
               = Some (2, [mkEdge 0 1 (-5)], None)) by reflexivity.
  exact (conj H1 (conj H2
           (encode_inverts_decode fs "graph.bin" input 2
              [mkEdge 0 1 (-5)] H1 H2))).
Defined.

Lemma header_value_encode (N : Z) (E : list Edge) :
  is_int16 N -> header_value (encode_graph N E) = N.
Proof.
  intros HN. unfold encode_graph, encode_int16. cbn [app header_value].
  apply int16_of_encode. assumption.
Qed.

Lemma records_of_encode (N : Z) (E : list Edge) :
  Forall Edge_int16 E -> records_of (encode_graph N E) = E.
Proof.
  intros HE. unfold records_of, encode_graph, encode_int16. cbn [app skipn].
  apply complete_records_encode. assumption.
Qed.

Lemma encode_graph_snoc (N : Z) (E : list Edge) (e : Edge) :
  encode_graph N (E ++ [e]) = encode_graph N E ++ encode_edge e.
Proof.
  unfold encode_graph. rewrite flat_map_app. cbn [flat_map].
  rewrite app_nil_r, app_assoc. reflexivity.
Qed.

Lemma first_invalid_app (n : Z) (pre l : list Edge) :
  Forall (valid_edge n) pre ->
  first_invalid n (pre ++ l) = first_invalid n l.
Proof.
  unfold first_invalid. induction 1 as [| e pre He _ IH]; [reflexivity |].
  cbn [app find]. apply valid_edgeb_iff in He. rewrite He. exact IH.
Qed.

Lemma truncation_error_shape (r : nat) :
  truncation_error r = ErrFrom io.ErrUnexpectedEOF
  \/ (exists err, truncation_error r = ErrTo err)
  \/ (exists err, truncation_error r = ErrWeight err).
Proof.
  destruct r as [| [| [| [| [| r]]]]]; simpl; eauto.
Qed.

(** Appending the record of a valid edge to a file that decodes appends
    that edge to the result and changes nothing else. *)
Theorem decode_appended_valid_record (fs fs' : FileSystem)
    (filename filename' : string) (input : list byte) (n : Z)
    (edges : list Edge) (e : Edge) :
  fs filename = inl input ->
  readGraph fs filename = Some (n, edges, None) ->
  Edge_int16 e -> valid_edge n e ->
  fs' filename' = inl (input ++ encode_edge e) ->
  readGraph fs' filename' = Some (n, edges ++ [e], None).
Proof.
  intros Hfs H He Hv Hfs'.
  pose proof (encode_inverts_decode_aux := readGraph_success _ _ _ _ H).
  destruct encode_inverts_decode_aux
    as (input' & Hfs'' & Hlen & Hn & Hrec & Hvalid).
  rewrite Hfs in Hfs''. injection Hfs'' as <-.
  assert (Hint : Forall Edge_int16 edges)
    by (rewrite Hrec; apply complete_records_int16).
  assert (Henc : encode_graph n edges = input).
  { subst n edges. unfold encode_graph, records_of.
    destruct input as [| b0 [| b1 body]]; simpl in Hlen; try lia.
    cbn [header_value skipn]. rewrite encode_int16_of.
    rewrite (encode_complete_records body
               (List.length (records_of (b0 :: b1 :: body)))) by lia.
    reflexivity. }
  apply readGraph_encode.
  - rewrite Hn. apply header_value_int16.
  - apply Forall_app. split; [assumption | constructor; [assumption |]].
    constructor.
  - apply Forall_app. split; [assumption | constructor; [assumption |]].
    constructor.
  - rewrite encode_graph_snoc, Henc. assumption.
Qed.

Lemma decode_appended_valid_record_witness :
  let input := [x02; x00; x00; x00; x01; x00; x0a; x00] in
  let e := mkEdge 1 1 (-7) in
  let fs := one_file "graph.bin" input in
  let fs' := one_file "longer.bin" (input ++ encode_edge e) in
  fs "graph.bin" = inl input
  /\ readGraph fs "graph.bin" = Some (2, [mkEdge 0 1 10], None)
  /\ Edge_int16 e /\ valid_edge 2 e
  /\ fs' "longer.bin" = inl (input ++ encode_edge e)
  /\ readGraph fs' "longer.bin" = Some (2, [mkEdge 0 1 10] ++ [e], None).
Proof.
  intros input e fs fs'.
  assert (H1 : fs "graph.bin" = inl input) by reflexivity.
  assert (H2 : readGraph fs "graph.bin" = Some (2, [mkEdge 0 1 10], None))
    by reflexivity.
  assert (H3 : Edge_int16 e) by (unfold Edge_int16, is_int16; simpl; lia).
  assert (H4 : valid_edge 2 e) by (unfold valid_edge; simpl; lia).
  assert (H5 : fs' "longer.bin" = inl (input ++ encode_edge e))
    by reflexivity.
  exact (conj H1 (conj H2 (conj H3 (conj H4 (conj H5
           (decode_appended_valid_record fs fs' "graph.bin" "longer.bin"
              input 2 [mkEdge 0 1 10] e H1 H2 H3 H4 H5)))))).
Defined.

(** Appending the record of an edge that breaks the validity invariant to
    a file that decodes makes the whole decode fail on that record: the
    edges decoded before it are not returned. *)
Theorem decode_appended_invalid_record (fs fs' : FileSystem)
    (filename filename' : string) (input : list byte) (n : Z)
    (edges : list Edge) (e : Edge) :
  fs filename = inl input ->
  readGraph fs filename = Some (n, edges, None) ->
  Edge_int16 e -> ~ valid_edge n e ->
  fs' filename' = inl (input ++ encode_edge e) ->
  readGraph fs' filename'
  = Some (0, [], Some (ErrIndices (from e) (to e))).
Proof.
  intros Hfs H He Hv Hfs'.
  destruct (readGraph_success _ _ _ _ H)
    as (input' & Hfs'' & Hlen & Hn & Hrec & Hvalid).
  rewrite Hfs in Hfs''. injection Hfs'' as <-.
  assert (Hlen' : (2 <= List.length (input ++ encode_edge e))%nat)
    by (rewrite length_app; lia).
  assert (Hhead : header_value (input ++ encode_edge e) = n).
  { rewrite Hn. destruct input as [| b0 [| b1 body]]; simpl in Hlen;
      try lia. reflexivity. }
  assert (Hrecs : records_of (input ++ encode_edge e) = edges ++ [e]).
  { unfold records_of. rewrite skipn_app.
    replace (2 - List.length input)%nat with 0%nat by lia.
    change (skipn 0 (encode_edge e)) with (encode_edge e).
    rewrite (complete_records_app _ _ (List.length edges))
      by (rewrite length_skipn; lia).
    fold (records_of input). rewrite <- Hrec. f_equal.
    pose proof (complete_records_encode [e]) as Hone.
    cbn [flat_map] in Hone. rewrite app_nil_r in Hone.
    apply Hone. constructor; [assumption | constructor]. }
  rewrite (readGraph_outcome _ _ _ Hfs' Hlen'), Hhead, Hrecs.
  rewrite first_invalid_app by assumption.
  unfold first_invalid. cbn [find].
  apply valid_edgeb_false_iff in Hv. rewrite Hv. reflexivity.
Qed.

Lemma decode_appended_invalid_record_witness :
  let input := [x02; x00; x00; x00; x01; x00; x0a; x00] in
  let e := mkEdge 1 2 0 in
  let fs := one_file "graph.bin" input in
  let fs' := one_file "longer.bin" (input ++ encode_edge e) in
  fs "graph.bin" = inl input
  /\ readGraph fs "graph.bin" = Some (2, [mkEdge 0 1 10], None)
  /\ Edge_int16 e /\ ~ valid_edge 2 e
  /\ fs' "longer.bin" = inl (input ++ encode_edge e)
  /\ readGraph fs' "longer.bin"
     = Some (0, [], Some (ErrIndices (from e) (to e))).
Proof.
  intros input e fs fs'.
  assert (H1 : fs "graph.bin" = inl input) by reflexivity.
  assert (H2 : readGraph fs "graph.bin" = Some (2, [mkEdge 0 1 10], None))
    by reflexivity.
  assert (H3 : Edge_int16 e) by (unfold Edge_int16, is_int16; simpl; lia).
  assert (H4 : ~ valid_edge 2 e) by (unfold valid_edge; simpl; lia).
  assert (H5 : fs' "longer.bin" = inl (input ++ encode_edge e))
    by reflexivity.
  exact (conj H1 (conj H2 (conj H3 (conj H4 (conj H5
           (decode_appended_invalid_record fs fs' "graph.bin" "longer.bin"
              input 2 [mkEdge 0 1 10] e H1 H2 H3 H4 H5)))))).
Defined.

(** On a file that opens, the decode fails with the error of an index out
    of range exactly when some complete record of the file breaks the
    validity invariant, whether or not the file is truncated further on. *)
Theorem index_error_iff_invalid_record (fs : FileSystem)
    (filename : string) (input : list byte) :
  fs filename = inl input ->
  (exists f t,
      readGraph fs filename = Some (0, [], Some (ErrIndices f t)))
  <-> Exists (fun e => ~ valid_edge (header_value input) e)
             (records_of input).
Proof.
  intros Hfs. split.
  - intros (f & t & H).
    destruct (Nat.lt_ge_cases (List.length input) 2) as [Hlt | Hge].
    + rewrite (readGraph_short _ _ _ Hfs Hlt) in H. discriminate.
    + rewrite (readGraph_outcome _ _ _ Hfs Hge) in H.
      destruct (first_invalid _ _) as [e |] eqn:Hinv.
      * destruct (first_invalid_some _ _ _ Hinv)
          as (pre & post & Heq & _ & Hne).
        rewrite Heq. apply Exists_app. right. left. exact Hne.
      * destruct ((List.length input - 2) mod 6)%nat as [| r];
          [discriminate |].
        destruct (truncation_error_shape (S r)) as [E | [(x & E) | (x & E)]];
          rewrite E in H; discriminate.
  - intros Hex. destruct (first_invalid_exists _ _ Hex) as (e & He).
    assert (Hge : (2 <= List.length input)%nat).
    { destruct input as [| b0 [| b1 body]]; try (inversion Hex; fail).
      simpl. lia. }
    rewrite (readGraph_outcome _ _ _ Hfs Hge), He.
    exists (from e), (to e). reflexivity.
Qed.

Lemma index_error_iff_invalid_record_witness :
  let input := [x01; x00; x00; x00; x01; x00; x00; x00; x00] in
  let fs := one_file "graph.bin" input in
  fs "graph.bin" = inl input
  /\ ((exists f t,
          readGraph fs "graph.bin" = Some (0, [], Some (ErrIndices f t)))
      <-> Exists (fun e => ~ valid_edge (header_value input) e)
                 (records_of input)).
Proof.
  intros input fs.
  assert (H1 : fs "graph.bin" = inl input) by reflexivity.
  exact (conj H1
           (index_error_iff_invalid_record fs "graph.bin" input H1)).
Defined.

(** On a file that opens, the decode fails with the error of a record cut
    after [r] bytes, [1 <= r <= 5], exactly when the file has its header,
    every complete record is valid and [r] bytes are left after the last
    complete record: the error tells how far the last record got. *)
Theorem truncation_error_iff (fs : FileSystem) (filename : string)
    (input : list byte) (r : nat) :
  fs filename = inl input ->
  (1 <= r <= 5)%nat ->
  readGraph fs filename = Some (0, [], Some (truncation_error r))
  <-> (2 <= List.length input)%nat
      /\ Forall (valid_edge (header_value input)) (records_of input)
      /\ ((List.length input - 2) mod 6)%nat = r.
Proof.
  intros Hfs Hr. split.
  - intros H.
    destruct (Nat.lt_ge_cases (List.length input) 2) as [Hlt | Hge].
    + rewrite (readGraph_short _ _ _ Hfs Hlt) in H.
      destruct (truncation_error_shape r) as [E | [(x & E) | (x & E)]];
        rewrite E in H; discriminate.
    + rewrite (readGraph_outcome _ _ _ Hfs Hge) in H.
      destruct (first_invalid _ _) as [e |] eqn:Hinv.
      * destruct (truncation_error_shape r) as [E | [(x & E) | (x & E)]];
          rewrite E in H; discriminate.
      * apply first_invalid_none in Hinv.
        pose proof (mod6_bounds (List.length input - 2)) as Hb.
        destruct ((List.length input - 2) mod 6)%nat as [| r'];
          [discriminate |].
        assert (Heq : truncation_error (S r') = truncation_error r)
          by (injection H as H; exact H).
        apply truncation_error_inj in Heq; try lia.
        repeat split; trivial.
  - intros (Hlen & Hvalid & Hmod).
    rewrite (readGraph_outcome _ _ _ Hfs Hlen).
    apply first_invalid_none in Hvalid. rewrite Hvalid, Hmod.
    destruct r as [| r]; [lia | reflexivity].
Qed.

Lemma truncation_error_iff_witness :
  let input := [x01; x00; x00; x00; x00; x00; x07; x00; x00; x00] in
  let fs := one_file "graph.bin" input in
  fs "graph.bin" = inl input
  /\ (1 <= 2 <= 5)%nat
  /\ (readGraph fs "graph.bin" = Some (0, [], Some (truncation_error 2))
      <-> (2 <= List.length input)%nat
          /\ Forall (valid_edge (header_value input)) (records_of input)
          /\ ((List.length input - 2) mod 6)%nat = 2%nat).
Proof.
  intros input fs.
  assert (H1 : fs "graph.bin" = inl input) by reflexivity.
  assert (H2 : (1 <= 2 <= 5)%nat) by lia.
  exact (conj H1 (conj H2
           (truncation_error_iff fs "graph.bin" input 2 H1 H2))).
Defined.


(** More turns than needed do not change what the loop returns. *)
Lemma readEdges_fuel (n : Z) (file : io.Reader) :
  forall (fuel : nat) (acc : list Edge),
    (List.length (complete_records file) < fuel)%nat ->
    readEdges fuel n file acc = readEdges (S (List.length file)) n file acc.
Proof.
  induction file as [l Hl | b0 b1 b2 b3 b4 b5 rest IH] using six_bytes_ind;
    intros fuel acc Hfuel.
  - destruct fuel as [| fuel]; [lia |].
    destruct l as [| c0 [| c1 [| c2 [| c3 [| c4 [| c5 l]]]]]];
      simpl in Hl; try lia; reflexivity.
  - destruct fuel as [| fuel]; [lia |].
    rewrite !readEdges_record.
    destruct (valid_edgeb n _); [| reflexivity].
    cbn [complete_records List.length] in Hfuel.
    rewrite (IH fuel) by lia.
    rewrite (IH (List.length (b0 :: b1 :: b2 :: b3 :: b4 :: b5 :: rest))).
    + reflexivity.
    + pose proof (complete_records_le rest). simpl. lia.
Qed.

(** The loop of the decoder ends: on every stream it returns within one
    turn more than the stream has complete records, and turns allowed
    beyond that change nothing. *)
Theorem decode_loop_terminates (n : Z) (file : io.Reader)
    (acc : list Edge) (fuel : nat) :
  (List.length (complete_records file) < fuel)%nat ->
  exists result,
    readEdges fuel n file acc = Some result
    /\ forall fuel', (fuel <= fuel')%nat ->
                     readEdges fuel' n file acc = Some result.
Proof.
  intros Hfuel.
  assert (H : exists result,
             readEdges (S (List.length file)) n file acc = Some result).
  { eexists. apply readEdges_outcome. lia. }
  destruct H as (result & H). exists result.
  split; [rewrite readEdges_fuel; assumption |].
  intros fuel' Hle. rewrite readEdges_fuel by lia. assumption.
Qed.

Lemma decode_loop_terminates_witness :
  let file := [x00; x00; x01; x00; x0a; x00; x01; x00; x00; x00; xfb; xff] in
  (List.length (complete_records file) < 3)%nat
  /\ exists result,
      readEdges 3 2 file [] = Some result
      /\ forall fuel', (3 <= fuel')%nat ->
                       readEdges fuel' 2 file [] = Some result.
Proof.
  intros file.
  assert (H1 : (List.length (complete_records file) < 3)%nat)
    by (simpl; lia).
  exact (conj H1 (decode_loop_terminates 2 file [] 3 H1)).
Defined.

(** ** Further properties of the emitter *)

Lemma append_empty (s : string) : (s ++ "")%string = s.
Proof. induction s as [| c s IH]; simpl; congruence. Qed.

Lemma text_of_lines_cons (l : string) (ls : list string) :
  text_of_lines (l :: ls) = (l ++ newline ++ text_of_lines ls)%string.
Proof. reflexivity. Qed.

(** The loop of the emitter when its first [j] writes succeed and the next
    one fails. *)
Lemma writeLines_fail_at (disk : Disk) (edges : list Edge) :
  forall (i : nat) (content : string) (j : nat) (err : string),
    (j < List.length edges)%nat ->
    (forall m, (m < j)%nat -> write_err disk (i + m) = None) ->
    write_err disk (i + j) = Some err ->
    writeLines disk i content edges
    = ((content ++ text_of_lines (map Sprintf_edge (firstn j edges)))%string,
       Some (ErrEdge err)).
Proof.
  induction edges as [| e edges IH]; intros i content j err Hj Hok Hfail.
  - simpl in Hj. lia.
  - cbn [writeLines]. unfold Fprintln. destruct j as [| j].
    + rewrite Nat.add_0_r in Hfail. rewrite Hfail.
      simpl. rewrite append_empty. reflexivity.
    + rewrite <- (Nat.add_0_r i) at 1. rewrite (Hok 0%nat) by lia.
      rewrite (IH (S i) _ j err).
      * cbn [firstn map]. rewrite text_of_lines_cons, !append_assoc.
        reflexivity.
      * simpl in Hj. lia.
      * intros m Hm. replace (S i + m)%nat with (i + S m)%nat by lia.
        apply Hok. lia.
      * replace (S i + j)%nat with (i + S j)%nat by lia. assumption.
Qed.

(** The loop of the emitter when the writes it makes all succeed. *)
Lemma writeLines_ok (disk : Disk) (edges : list Edge) :
  forall (i : nat) (content : string),
    (forall m, (m < List.length edges)%nat -> write_err disk (i + m) = None) ->
    writeLines disk i content edges
    = ((content ++ text_of_lines (map Sprintf_edge edges))%string, None).
Proof.
  induction edges as [| e edges IH]; intros i content Hok.
  - simpl. rewrite append_empty. reflexivity.
  - cbn [writeLines]. unfold Fprintln.
    rewrite <- (Nat.add_0_r i) at 1. rewrite (Hok 0%nat) by (simpl; lia).
    rewrite IH.
    + cbn [map]. rewrite text_of_lines_cons, !append_assoc. reflexivity.
    + intros m Hm. replace (S i + m)%nat with (i + S m)%nat by lia.
      apply Hok. simpl. lia.
Qed.

(** The first write that fails among the writes [i], [i + 1], ... of a
    loop over [k] edges, if there is one. *)
Lemma first_failed_write (disk : Disk) (k : nat) :
  forall i : nat,
    (forall m, (m < k)%nat -> write_err disk (i + m) = None)
    \/ exists j err,
         (j < k)%nat
         /\ (forall m, (m < j)%nat -> write_err disk (i + m) = None)
         /\ write_err disk (i + j) = Some err.
Proof.
  induction k as [| k IH]; intros i.
  - left. intros m Hm. lia.
  - destruct (write_err disk i) as [err |] eqn:E.
    + right. exists 0%nat, err. rewrite Nat.add_0_r.
      repeat split; [lia | intros m Hm; lia | assumption].
    + destruct (IH (S i)) as [Hok | (j & err & Hj & Hok & Hfail)].
      * left. intros m Hm. destruct m as [| m].
        -- rewrite Nat.add_0_r. assumption.
        -- replace (i + S m)%nat with (S i + m)%nat by lia. apply Hok. lia.
      * right. exists (S j), err. repeat split; [lia | |].
        -- intros m Hm. destruct m as [| m].
           ++ rewrite Nat.add_0_r. assumption.
           ++ replace (i + S m)%nat with (S i + m)%nat by lia.
              apply Hok. lia.
        -- replace (i + S j)%nat with (S i + j)%nat by lia. assumption.
Qed.

Lemma report_lines_no_newline (edges : list Edge) :
  Forall (fun l => no_newline l = true) (header :: map Sprintf_edge edges).
Proof.
  constructor; [reflexivity |].
  apply Forall_forall. intros l Hl. apply in_map_iff in Hl.
  destruct Hl as (e & <- & _). apply Sprintf_edge_no_newline.
Qed.


(** The emitter when the file is created, the writes before the [j]-th
    succeed and the [j]-th fails. *)
Lemma writeEdges_first_failure (disk : Disk) (filename : string)
    (edges : list Edge) (j : nat) (err : string) :
  create_err disk filename = None ->
  (j <= List.length edges)%nat ->
  (forall m, (m < j)%nat -> write_err disk m = None) ->
  write_err disk j = Some err ->
  writeEdges disk filename edges
  = (Some (text_of_lines (firstn j (header :: map Sprintf_edge edges))),
     Some match j with
          | O => ErrHeader err
          | S _ => ErrEdge err
          end).
Proof.
  intros Hc Hj Hok Hfail. unfold writeEdges, Fprintln. rewrite Hc.
  destruct j as [| j].
  - rewrite Hfail. reflexivity.
  - rewrite (Hok 0%nat) by lia.
    rewrite (writeLines_fail_at disk edges 1 _ j err).
    + cbn [firstn]. rewrite firstn_map, text_of_lines_cons, append_assoc.
      reflexivity.
    + lia.
    + intros m Hm. apply (Hok (S m)). lia.
    + exact Hfail.
Qed.

(** The emitter when the file is created and the writes it makes all
    succeed. *)
Lemma writeEdges_all_written (disk : Disk) (filename : string)
    (edges : list Edge) :
  create_err disk filename = None ->
  (forall m, (m <= List.length edges)%nat -> write_err disk m = None) ->
  writeEdges disk filename edges
  = (Some (text_of_lines (header :: map Sprintf_edge edges)), None).
Proof.
  intros Hc Hok. unfold writeEdges, Fprintln. rewrite Hc.
  rewrite (Hok 0%nat) by lia.
  rewrite (writeLines_ok disk edges 1).
  - rewrite text_of_lines_cons, append_assoc. reflexivity.
  - intros m Hm. apply (Hok (S m)). lia.
Qed.



(** The emitter returns no error exactly when the file can be created and
    the writes of the header and of each edge succeed; what later writes
    would do does not matter.  It has then written the whole report. *)
Theorem emit_succeeds_iff (disk : Disk) (filename : string)
    (edges : list Edge) :
  (snd (writeEdges disk filename edges) = None
   <-> create_err disk filename = None
       /\ forall m, (m <= List.length edges)%nat -> write_err disk m = None)
  /\ (snd (writeEdges disk filename edges) = None ->
      fst (writeEdges disk filename edges)
      = Some (text_of_lines (header :: map Sprintf_edge edges))).
Proof.
  assert (Hiff : snd (writeEdges disk filename edges) = None
                 <-> create_err disk filename = None
                     /\ forall m, (m <= List.length edges)%nat ->
                                  write_err disk m = None).
  { split.
    - intros H. destruct (create_err disk filename) as [e |] eqn:Hc.
      + unfold writeEdges in H. rewrite Hc in H. discriminate.
      + split; [reflexivity |].
        destruct (first_failed_write disk (S (List.length edges)) 0)
          as [Hok | (j & err & Hj & Hok & Hfail)].
        * intros m Hm. apply (Hok m). lia.
        * rewrite (writeEdges_first_failure disk filename edges j err)
            in H; trivial; try lia. discriminate.
    - intros [Hc Hok]. rewrite writeEdges_all_written by assumption.
      reflexivity. }
  split; [exact Hiff |].
  intros H. apply Hiff in H. destruct H as [Hc Hok].
  rewrite writeEdges_all_written by assumption. reflexivity.
Qed.




(** ** The report read back *)

Lemma number_char_digit (v : Z) :
  0 <= v <= 9 -> number_char (fmt.digit v) = true.
Proof.
  intros Hv.
  assert (H : v = 0 \/ v = 1 \/ v = 2 \/ v = 3 \/ v = 4 \/ v = 5 \/ v = 6
              \/ v = 7 \/ v = 8 \/ v = 9) by lia.
  repeat (destruct H as [-> | H]; [reflexivity |]). subst v. reflexivity.
Qed.

Lemma fmtDigits_number_text (fuel : nat) :
  forall (u : Z) (buf : string),
    0 <= u -> number_text buf = true ->
    number_text (fmt.fmtDigits fuel u buf) = true.
Proof.
  induction fuel as [| fuel IH]; intros u buf Hu Hbuf; [exact Hbuf |].
  cbn [fmt.fmtDigits]. destruct (Z.geb_spec u 10) as [Hge | Hlt].
  - cbv zeta. apply IH.
    + Z.div_mod_to_equations. lia.
    + cbn [number_text]. rewrite number_char_digit, Hbuf; [reflexivity |].
      Z.div_mod_to_equations. lia.
  - cbn [number_text]. rewrite number_char_digit, Hbuf by lia. reflexivity.
Qed.

Lemma d_number_text (v : Z) : number_text (fmt.d v) = true.
Proof.
  unfold fmt.d. destruct (Z.ltb_spec v 0).
  - cbn [number_text]. rewrite fmtDigits_number_text by (trivial; lia).
    reflexivity.
  - apply fmtDigits_number_text; [lia | reflexivity].
Qed.

Lemma take_number_app (s t : string) :
  number_text s = true ->
  take_number t = (EmptyString, t) ->
  take_number (s ++ t)%string = (s, t).
Proof.
  intros Hs Ht. induction s as [| c s IH]; [exact Ht |].
  simpl in Hs. apply andb_true_iff in Hs. destruct Hs as [Hc Hs].
  change (String c s ++ t)%string with (String c (s ++ t)%string).
  cbn [take_number]. rewrite Hc, IH by assumption. reflexivity.
Qed.

Lemma after_app (sep s : string) : after sep (sep ++ s)%string = Some s.
Proof.
  induction sep as [| c sep IH]; [reflexivity |].
  change (String c sep ++ s)%string with (String c (sep ++ s)%string).
  cbn [after]. rewrite Ascii.eqb_refl. exact IH.
Qed.

(** Reading a line the emitter formatted gives the edge back. *)
Lemma read_edge_line_Sprintf (e : Edge) :
  Edge_int16 e -> read_edge_line (Sprintf_edge e) = Some e.
Proof.
  intros (Hf & Ht & Hw). unfold read_edge_line, Sprintf_edge.
  rewrite after_app.
  rewrite (take_number_app (fmt.d (from e))) by
    (trivial; apply d_number_text).
  rewrite after_app.
  rewrite (take_number_app (fmt.d (to e))) by
    (trivial; apply d_number_text).
  rewrite after_app.
  rewrite (take_number_app (fmt.d (weight e))) by
    (trivial; apply d_number_text).
  change (after ")" ")") with (Some EmptyString).
  rewrite !read_decimal_int16 by assumption.
  destruct e; reflexivity.
Qed.

Lemma map_Sprintf_edge_inj (edges1 : list Edge) :
  forall edges2 : list Edge,
    Forall Edge_int16 edges1 -> Forall Edge_int16 edges2 ->
    map Sprintf_edge edges1 = map Sprintf_edge edges2 ->
    edges1 = edges2.
Proof.
  induction edges1 as [| e1 edges1 IH]; intros edges2 H1 H2 Heq.
  - destruct edges2; [reflexivity | discriminate].
  - destruct edges2 as [| e2 edges2]; [discriminate |].
    inversion H1 as [| ? ? He1 H1']. inversion H2 as [| ? ? He2 H2'].
    subst. cbn [map] in Heq.
    assert (Hline : Sprintf_edge e1 = Sprintf_edge e2) by congruence.
    assert (Hrest : map Sprintf_edge edges1 = map Sprintf_edge edges2)
      by congruence.
    f_equal.
    + apply (f_equal read_edge_line) in Hline.
      rewrite !read_edge_line_Sprintf in Hline by assumption.
      injection Hline as ->. reflexivity.
    + apply IH; assumption.
Qed.

(** The report determines the edges: two edge lists for which the emitter
    writes the same file are the same list, so no edge, no sign and no
    order is lost in the text. *)
Theorem report_determines_edges (disk1 disk2 : Disk)
    (filename1 filename2 : string) (edges1 edges2 : list Edge) :
  reliable disk1 filename1 -> reliable disk2 filename2 ->
  Forall Edge_int16 edges1 -> Forall Edge_int16 edges2 ->
  fst (writeEdges disk1 filename1 edges1)
  = fst (writeEdges disk2 filename2 edges2) ->
  edges1 = edges2.
Proof.
  intros Hd1 Hd2 H1 H2 Heq.
  rewrite !writeEdges_reliable in Heq by assumption.
  cbn [fst] in Heq.
  assert (Htext : text_of_lines (header :: map Sprintf_edge edges1)
                  = text_of_lines (header :: map Sprintf_edge edges2))
    by congruence.
  apply (f_equal lines) in Htext.
  rewrite !lines_text_of_lines in Htext by apply report_lines_no_newline.
  apply map_Sprintf_edge_inj; trivial. congruence.
Qed.

Lemma report_determines_edges_witness :
  let edges := [mkEdge 0 1 10; mkEdge 1 0 (-5)] in
  reliable good_disk "a.txt" /\ reliable good_disk "b.txt"
  /\ Forall Edge_int16 edges /\ Forall Edge_int16 edges
  /\ fst (writeEdges good_disk "a.txt" edges)
     = fst (writeEdges good_disk "b.txt" edges)
  /\ edges = edges.
Proof.
  intros edges.
  assert (H1 : reliable good_disk "a.txt") by concrete.
  assert (H2 : reliable good_disk "b.txt") by concrete.
  assert (H3 : Forall Edge_int16 edges) by concrete.
  assert (H4 : fst (writeEdges good_disk "a.txt" edges)
               = fst (writeEdges good_disk "b.txt" edges)) by reflexivity.
  exact (conj H1 (conj H2 (conj H3 (conj H3 (conj H4
           (report_determines_edges good_disk good_disk "a.txt" "b.txt"
              edges edges H1 H2 H3 H3 H4)))))).
Defined.

(** ** The whole program *)

(** Without an input file, the flag [-i] absent or given the empty name,
    the program prints the usage message and stops: nothing is read and no
    output file is created, whatever the other flag, the files and the disk
    are. *)
Theorem main_usage (fs : FileSystem) (disk : Disk) (flags : Flags) :
  flag_i flags = None \/ flag_i flags = Some EmptyString ->
  main fs disk flags = Some (mkOutcome (usage ++ newline)%string None).
Proof.
  intros [H | H]; unfold main; rewrite H; reflexivity.
Qed.

Lemma main_usage_witness :
  let flags := mkFlags None (Some "edges.txt") in
  let fs := one_file "graph.bin" [x00; x00] in
  (flag_i flags = None \/ flag_i flags = Some EmptyString)
  /\ main fs good_disk flags
     = Some (mkOutcome (usage ++ newline)%string None).
Proof.
  intros flags fs.
  assert (H1 : flag_i flags = None \/ flag_i flags = Some EmptyString)
    by (left; reflexivity).
  exact (conj H1 (main_usage fs good_disk flags H1)).
Defined.

(** End to end: given the encoding of a valid graph as input and a disk
    that does not fail, the program prints the count of vertices and of
    edges, then the message of success with the name of the output file,
    [output.txt] unless [-o] names another, and leaves in that file the
    header line followed by one line per edge, in order. *)
Theorem main_end_to_end (fs : FileSystem) (disk : Disk) (flags : Flags)
    (inputFile : string) (N : Z) (E : list Edge) :
  let outputFile := flag_String (flag_o flags) "output.txt" in
  flag_i flags = Some inputFile ->
  inputFile <> EmptyString ->
  is_int16 N -> Forall Edge_int16 E -> Forall (valid_edge N) E ->
  fs inputFile = inl (encode_graph N E) ->
  reliable disk outputFile ->
  exists content,
    main fs disk flags
    = Some (mkOutcome
              (("Граф успешно считан: " ++ fmt.d N ++ " вершин, "
                ++ fmt.d (Z.of_nat (List.length E)) ++ " ребер." ++ newline)
               ++ "Ребра успешно записаны в файл " ++ outputFile ++ "."
               ++ newline)%string
              (Some (outputFile, content)))
    /\ lines content = header :: map Sprintf_edge E.
Proof.
  intros outputFile Hi Hne HN HE Hvalid Hfs Hd.
  exists (text_of_lines (header :: map Sprintf_edge E)). split.
  - unfold main. rewrite Hi. cbn [flag_String].
    apply String.eqb_neq in Hne. rewrite Hne.
    rewrite (readGraph_encode _ _ _ _ HN HE Hvalid Hfs).
    fold outputFile. rewrite (writeEdges_reliable _ _ _ Hd). reflexivity.
  - apply lines_text_of_lines, report_lines_no_newline.
Qed.

Lemma main_end_to_end_witness :
  let N := 2 in
  let E := [mkEdge 0 1 10; mkEdge 1 0 (-5)] in
  let flags := mkFlags (Some "graph.bin") None in
  let fs := one_file "graph.bin" (encode_graph N E) in
  flag_i flags = Some "graph.bin"
  /\ "graph.bin" <> EmptyString
  /\ is_int16 N /\ Forall Edge_int16 E /\ Forall (valid_edge N) E
  /\ fs "graph.bin" = inl (encode_graph N E)
  /\ reliable good_disk "output.txt"
  /\ exists content,
      main fs good_disk flags
      = Some (mkOutcome
                (("Граф успешно считан: " ++ fmt.d N ++ " вершин, "
                  ++ fmt.d (Z.of_nat (List.length E)) ++ " ребер."
                  ++ newline)
                 ++ "Ребра успешно записаны в файл " ++ "output.txt" ++ "."
                 ++ newline)%string
                (Some ("output.txt", content)))
      /\ lines content = header :: map Sprintf_edge E.
Proof.
  intros N E flags fs.
  assert (H1 : flag_i flags = Some "graph.bin") by reflexivity.
  assert (H2 : "graph.bin" <> EmptyString) by discriminate.
  assert (H3 : is_int16 N) by concrete.
  assert (H4 : Forall Edge_int16 E) by concrete.
  assert (H5 : Forall (valid_edge N) E) by concrete.
  assert (H6 : fs "graph.bin" = inl (encode_graph N E)) by reflexivity.
  assert (H7 : reliable good_disk "output.txt") by concrete.
  exact (conj H1 (conj H2 (conj H3 (conj H4 (conj H5 (conj H6 (conj H7
           (main_end_to_end fs good_disk flags "graph.bin" N E
              H1 H2 H3 H4 H5 H6 H7)))))))).
Defined.






